(** * Vite HTML Editor: code/canvas synchronisation and export pipeline

    A shallow embedding of the original logic of the editor:
    - [src/editor/sync.ts]: [getEditorHtml], [getEditorCss], [applyGlobalCss],
      [applyHtmlToSelected];
    - [src/code/CodeTabs.tsx]: [sync], [scheduleSync], [applyEdits];
    - [src/App.tsx]: [escapeHtml], [safeJsonParse], the persisted-settings
      initialisers and [exportProjectFiles].

    JavaScript strings are sequences of UTF-16 code units; they are modelled as
    [list N].  The visual-editing engine, the browser's animation-frame queue,
    [localStorage] and [JSON.parse] are collaborators of the program: the engine
    is an interface ([Engine]), the frame queue and the storage are explicit
    state, and [JSON.parse] is a parameter of the settings section.  A
    reference engine and a reference parser give concrete instances. *)

From Stdlib Require Import NArith List Ascii String Lia.
From stdpp Require Import base option list gmap.
Import ListNotations.

Set Warnings "-register-all".
Local Open Scope N_scope.

(** ** JavaScript strings *)

Module JS.

(** A JavaScript string: its UTF-16 code units. *)
Abbreviation jsstring := (list N) (only parsing).

(** An ASCII literal of the source, as code units. *)
Definition js (s : string) : jsstring :=
  map N_of_ascii (list_ascii_of_string s).

Arguments js : simpl never.

Definition nl : jsstring := [10].
Definition dq : jsstring := [34].

(** An attribute with its double-quoted value, as it appears in the markup
    literals of the source. *)
Definition attr (name : string) (value : jsstring) : jsstring :=
  js name ++ js "=" ++ dq ++ value ++ dq.

(** ECMAScript WhiteSpace and LineTerminator code points: what
    [String.prototype.trim] strips and what [\s] matches. *)
Definition is_whitespace (c : N) : bool :=
  (c =? 9) || (c =? 10) || (c =? 11) || (c =? 12) || (c =? 13) || (c =? 32)
  || (c =? 160) || (c =? 5760) || ((8192 <=? c) && (c <=? 8202))
  || (c =? 8232) || (c =? 8233) || (c =? 8239) || (c =? 8287)
  || (c =? 12288) || (c =? 65279).

Fixpoint trimStart (s : jsstring) : jsstring :=
  match s with
  | [] => []
  | c :: t => if is_whitespace c then trimStart t else s
  end.

Fixpoint trimEnd (s : jsstring) : jsstring :=
  match s with
  | [] => []
  | c :: t =>
      match trimEnd t with
      | [] => if is_whitespace c then [] else [c]
      | t' => c :: t'
      end
  end.

(** [s.trim()] *)
Definition trim (s : jsstring) : jsstring := trimEnd (trimStart s).

(** [s.replace(/[class]+/g, rep)] for a replacement text without [$]
    patterns: every maximal run of code units of the class becomes one [rep].
    [in_run] says that the previous code unit belonged to the run being
    replaced. *)
Fixpoint replace_runs_from (in_run : bool) (cls : N -> bool) (rep s : jsstring)
  : jsstring :=
  match s with
  | [] => []
  | c :: t =>
      if cls c
      then (if in_run then [] else rep) ++ replace_runs_from true cls rep t
      else c :: replace_runs_from false cls rep t
  end.

Definition replace_runs : (N -> bool) -> jsstring -> jsstring -> jsstring :=
  replace_runs_from false.

(** [pat] is a prefix of [s]. *)
Fixpoint starts_with (pat s : jsstring) : bool :=
  match pat, s with
  | [], _ => true
  | _ :: _, [] => false
  | p :: pat', c :: s' => (p =? c) && starts_with pat' s'
  end.

(** [s.replaceAll(pat, rep)] for a non-empty string pattern: the occurrences
    are found left to right and do not overlap.  [skip] counts the code units
    of the current occurrence that are still to be passed over. *)
Fixpoint replaceAll_from (skip : nat) (pat rep s : jsstring) : jsstring :=
  match s with
  | [] => []
  | c :: t =>
      match skip with
      | S k => replaceAll_from k pat rep t
      | O =>
          if starts_with pat s
          then rep ++ replaceAll_from (Nat.pred (length pat)) pat rep t
          else c :: replaceAll_from O pat rep t
      end
  end.

Definition replaceAll (pat rep s : jsstring) : jsstring :=
  replaceAll_from O pat rep s.

(** [a || b] on strings: the empty string is the only falsy string. *)
Definition or_else (a b : jsstring) : jsstring :=
  match a with
  | [] => b
  | _ :: _ => a
  end.

(** [hay.includes(needle)] *)
Fixpoint includesb (needle hay : jsstring) : bool :=
  starts_with needle hay
  || match hay with
     | [] => false
     | _ :: t => includesb needle t
     end.

(** [needle] occurs in [hay]. *)
Definition includes (needle hay : jsstring) : Prop :=
  exists pre post, hay = pre ++ needle ++ post.

End JS.
Export JS.

(** ** src/App.tsx: export *)

(** [type HeadSettings] *)
Record HeadSettings := {
  pageTitle : jsstring;
  headHtml : jsstring;
  exportBaseName : jsstring
}.

(** One call of [downloadFile(filename, content, mime)]. *)
Record Download := {
  filename : jsstring;
  content : jsstring;
  mime : jsstring
}.

Definition escapeHtml (s : jsstring) : jsstring :=
  replaceAll (js "'") (js "&#39;")
    (replaceAll dq (js "&quot;")
      (replaceAll (js ">") (js "&gt;")
        (replaceAll (js "<") (js "&lt;")
          (replaceAll (js "&") (js "&amp;") s)))).

(** The character class of the first [replace] of the export base name:
    backslash, slash, colon, asterisk, question mark, double quote, the two
    angle brackets and the vertical bar. *)
Definition is_reserved (c : N) : bool :=
  (c =? 92) || (c =? 47) || (c =? 58) || (c =? 42) || (c =? 63)
  || (c =? 34) || (c =? 60) || (c =? 62) || (c =? 124).

Definition default_base : jsstring := js "vite-html-editor-export".
Definition default_title : jsstring := js "Vite HTML Editor Export".

(** [const base]: the base name or, when it is falsy, the default one; then
    [.trim()], then every run of reserved characters replaced by a dash, then
    every run of [\s] replaced by a dash. *)
Definition export_base (hs : HeadSettings) : jsstring :=
  replace_runs is_whitespace (js "-")
    (replace_runs is_reserved (js "-")
      (trim (or_else (exportBaseName hs) default_base))).

(** [const pageTitle]: the title or, when it is falsy, the default one; then
    [.trim()]. *)
Definition export_title (hs : HeadSettings) : jsstring :=
  trim (or_else (pageTitle hs) default_title).

(** The template literal [htmlDoc], hole by hole. *)
Definition htmlDoc (title head base html : jsstring) : jsstring :=
  js "<!doctype html>" ++ nl
  ++ js "<html " ++ attr "lang" (js "en") ++ js ">" ++ nl
  ++ js "<head>" ++ nl
  ++ js "  <meta " ++ attr "charset" (js "utf-8") ++ js " />" ++ nl
  ++ js "  <meta " ++ attr "name" (js "viewport") ++ js " "
     ++ attr "content" (js "width=device-width,initial-scale=1") ++ js " />" ++ nl
  ++ js "  <title>" ++ escapeHtml title ++ js "</title>" ++ nl
  ++ head ++ nl
  ++ js "  <link " ++ attr "rel" (js "stylesheet") ++ js " "
     ++ attr "href" (js "./" ++ base ++ js ".css") ++ js " />" ++ nl
  ++ js "</head>" ++ nl
  ++ js "<body>" ++ nl
  ++ html ++ nl
  ++ js "<script " ++ attr "src" (js "./" ++ base ++ js ".js") ++ js "></script>" ++ nl
  ++ js "</body>" ++ nl
  ++ js "</html>".

(** ** The Document Engine *)

(** What a [throw] carries, as far as [String(e?.message ?? e)] can tell: an
    object with a [message], or a value without one, given by its string
    conversion. *)
Inductive thrown : Type :=
  | ErrorObject (message : jsstring)
  | ThrownValue (text : jsstring).

(** How a call ends: normally with a value, or abruptly with a [throw]. *)
Inductive completion (A : Type) : Type :=
  | Normal (a : A)
  | Throw (e : thrown).
Arguments Normal {A} a.
Arguments Throw {A} e.

#[global] Instance completion_ret : MRet completion := @Normal.

#[global] Instance completion_bind : MBind completion :=
  fun A B (k : A -> completion B) (m : completion A) =>
    match m with
    | Normal a => k a
    | Throw e => Throw e
    end.

(** The part of the engine the program consumes.  [D] is the state of the
    engine (component tree, style rules, selection) and [Node] a reference to a
    component.  The calls the program guards with [try] may throw: the two
    serialisers, which read the state, and [components], which ends in a state
    and a completion, since a [throw] does not undo what the call did before
    it.  [getSelected] and [setStyle] follow their declared signatures. *)
Class Engine (D Node : Type) : Type := {
  getHtml : D -> completion jsstring;
  getCss : D -> completion jsstring;
  getSelected : D -> option Node;
  setStyle : jsstring -> D -> D;
  components : Node -> jsstring -> D -> D * completion unit
}.

(** [String(e?.message ?? e)] *)
Definition cause_text (e : thrown) : jsstring :=
  match e with
  | ErrorObject m => m
  | ThrownValue t => t
  end.

(** The result object of [applyHtmlToSelected]. *)
Record ApplyResult := {
  ok : bool;
  message : jsstring
}.

(** The tabs of the code view. *)
Inductive Tab : Type := html_tab | css_tab | js_tab.

(** The state of [CodeTabs]: its [useState] cells and the [jsValue] prop. *)
Record CodeView := {
  tab : Tab;
  htmlValue : jsstring;
  cssValue : jsstring;
  jsValue : jsstring;
  status : jsstring
}.

Definition setStatus (m : jsstring) (v : CodeView) : CodeView :=
  {| tab := tab v; htmlValue := htmlValue v; cssValue := cssValue v;
     jsValue := jsValue v; status := m |}.

Definition setHtmlValue (h : jsstring) (v : CodeView) : CodeView :=
  {| tab := tab v; htmlValue := h; cssValue := cssValue v;
     jsValue := jsValue v; status := status v |}.

Definition setCssValue (c : jsstring) (v : CodeView) : CodeView :=
  {| tab := tab v; htmlValue := htmlValue v; cssValue := c;
     jsValue := jsValue v; status := status v |}.

(** The change events [CodeTabs] subscribes [scheduleSync] to. *)
Inductive EngineEvent : Type :=
  | ev_load
  | ev_update
  | ev_component_add
  | ev_component_remove
  | ev_component_update
  | ev_component_selected
  | ev_styleManager_change
  | ev_style_property_update.

Section Program.

Context {D Node : Type} `{!Engine D Node}.

(** *** src/editor/sync.ts *)

Definition getEditorHtml (editor : D) : completion jsstring := getHtml editor.

Definition getEditorCss (editor : D) : completion jsstring := getCss editor.

Definition applyGlobalCss (editor : D) (css : jsstring) : D :=
  setStyle css editor.

Definition applyHtmlToSelected (editor : D) (html : jsstring)
  : D * ApplyResult :=
  match getSelected editor with
  | None =>
      (editor,
       {| ok := false;
          message := js "No component selected. Click an element on the canvas, then apply HTML." |})
  | Some sel =>
      match components sel html editor with
      | (editor', Normal _) =>
          (editor',
           {| ok := true; message := js "Applied HTML to the selected component." |})
      | (editor', Throw e) =>
          (editor',
           {| ok := false;
              message := js "Failed to apply HTML: " ++ cause_text e |})
      end
  end.

(** *** src/code/CodeTabs.tsx *)

(** [sync]: both serialisations are read, the HTML one first, then both
    are stored; when a serialiser throws, nothing is stored and the status
    reports the cause.  The serialisers return strings, on which the nullish
    defaults of the source do nothing. *)
Definition sync (editor : D) (v : CodeView) : CodeView :=
  match h ← getEditorHtml editor; c ← getEditorCss editor; mret (h, c) with
  | Normal (h, c) => setCssValue c (setHtmlValue h v)
  | Throw e => setStatus (js "Sync failed: " ++ cause_text e) v
  end.

(** The mutable world of the mounted [CodeTabs]: the engine, the view, the
    [rafRef] cell, and the window's animation-frame machinery (the identifier
    counter of [requestAnimationFrame] and the handles of the callbacks waiting
    for the next frame, all of them the closure built by [scheduleSync]).
    [regenerations] counts the runs of [sync]. *)
Record World := {
  engine : D;
  view : CodeView;
  rafRef : option N;
  frame_counter : N;
  frame_callbacks : list N;
  regenerations : nat
}.

(** Truthiness of [rafRef.current], a number or [null]. *)
Definition truthy (r : option N) : bool :=
  match r with
  | None => false
  | Some n => negb (n =? 0)
  end.

(** [requestAnimationFrame(cb)]: the counter is incremented, the callback is
    queued under the new identifier, which is returned. *)
Definition requestAnimationFrame (w : World) : N * World :=
  let handle := frame_counter w + 1 in
  (handle,
   {| engine := engine w; view := view w; rafRef := rafRef w;
      frame_counter := handle;
      frame_callbacks := frame_callbacks w ++ [handle];
      regenerations := regenerations w |}).

Definition scheduleSync (w : World) : World :=
  if truthy (rafRef w) then w
  else
    let '(handle, w') := requestAnimationFrame w in
    {| engine := engine w'; view := view w'; rafRef := Some handle;
       frame_counter := frame_counter w';
       frame_callbacks := frame_callbacks w';
       regenerations := regenerations w' |}.

(** The callback given to [requestAnimationFrame]: it clears [rafRef] and
    runs [sync]. *)
Definition frame_callback (w : World) : World :=
  {| engine := engine w; view := sync (engine w) (view w); rafRef := None;
     frame_counter := frame_counter w;
     frame_callbacks := frame_callbacks w;
     regenerations := S (regenerations w) |}.

(** A rendering frame: the list of waiting callbacks is emptied, then each of
    them is run in order. *)
Definition run_frame (w : World) : World :=
  fold_left (fun w' _ => frame_callback w') (frame_callbacks w)
    {| engine := engine w; view := view w; rafRef := rafRef w;
       frame_counter := frame_counter w;
       frame_callbacks := [];
       regenerations := regenerations w |}.

(** [editor.on(name, scheduleSync)] for each of the eight event names. *)
Definition on_event (e : EngineEvent) (w : World) : World :=
  match e with
  | ev_load | ev_update | ev_component_add | ev_component_remove
  | ev_component_update | ev_component_selected | ev_styleManager_change
  | ev_style_property_update => scheduleSync w
  end.

(** What happens between two frames: the engine changes its document, and it
    fires change events. *)
Inductive Action : Type :=
  | Mutate (f : D -> D)
  | Fire (e : EngineEvent).

Definition step (w : World) (a : Action) : World :=
  match a with
  | Mutate f =>
      {| engine := f (engine w); view := view w; rafRef := rafRef w;
         frame_counter := frame_counter w;
         frame_callbacks := frame_callbacks w;
         regenerations := regenerations w |}
  | Fire e => on_event e w
  end.

Definition run (acts : list Action) (w : World) : World :=
  fold_left step acts w.

Definition is_fire (a : Action) : bool :=
  match a with
  | Fire _ => true
  | Mutate _ => false
  end.

(** The number of change events of a trace, and its document changes alone. *)
Definition fired (acts : list Action) : nat :=
  length (filter (fun a => is_fire a = true) acts).

Definition mutations (acts : list Action) : list Action :=
  filter (fun a => is_fire a = false) acts.

(** What a trace does to the document: its changes, in order. *)
Definition document_step (d : D) (a : Action) : D :=
  match a with
  | Mutate f => f d
  | Fire _ => d
  end.

(** A callback waits under the non-zero handle kept in [rafRef]. *)
Definition armed (w : World) : Prop :=
  exists h, h <> 0 /\ rafRef w = Some h /\ frame_callbacks w = [h].

(** [rafRef] and the waiting callbacks agree: none waits, or one does. *)
Definition coherent (w : World) : Prop :=
  match rafRef w with
  | None => frame_callbacks w = []
  | Some h => h <> 0 /\ frame_callbacks w = [h]
  end.

(** [applyEdits], on the [editor] and [advancedMode] props and the view. *)
Definition applyEdits (editor : option D) (advancedMode : bool) (v : CodeView)
  : option D * CodeView :=
  match editor with
  | None => (None, v)
  | Some ed =>
      if negb advancedMode
      then (Some ed, setStatus (js "Enable Advanced Editing Mode to apply changes.") v)
      else
        match tab v with
        | css_tab =>
            (Some (applyGlobalCss ed (cssValue v)),
             setStatus (js "Applied CSS globally.") v)
        | html_tab =>
            let '(ed', res) := applyHtmlToSelected ed (htmlValue v) in
            (Some ed', setStatus (message res) v)
        | js_tab => (Some ed, setStatus (js "JS saved for export.") v)
        end
  end.

(** *** src/App.tsx: [exportProjectFiles] *)

(** The three [downloadFile] calls, in order; nothing without an editor.
    The serialisers are called outside any [try], before the first download:
    what they throw leaves the function. *)
Definition exportProjectFiles (editor : option D) (jsValue : jsstring)
    (headSettings : HeadSettings) : completion (list Download) :=
  match editor with
  | None => Normal []
  | Some ed =>
      html ← getEditorHtml ed;
      css ← getEditorCss ed;
      let js_text := jsValue in
      let base := export_base headSettings in
      let pageTitle := export_title headSettings in
      let headHtml := or_else (headHtml headSettings) [] in
      Normal
        [ {| filename := base ++ js ".html";
             content := htmlDoc pageTitle headHtml base html;
             mime := js "text/html;charset=utf-8" |};
          {| filename := base ++ js ".css";
             content := css;
             mime := js "text/css;charset=utf-8" |};
          {| filename := base ++ js ".js";
             content := js_text;
             mime := js "text/javascript;charset=utf-8" |} ]
  end.

End Program.

Arguments World : clear implicits.
Arguments Action : clear implicits.

(** ** src/App.tsx: persisted settings *)

Definition LS_THEME_KEY : jsstring := js "vite-html-editor:theme".
Definition LS_HEAD_KEY : jsstring := js "vite-html-editor:headSettings".
Definition LS_CUSTOM_PALETTE_KEY : jsstring := js "vite-html-editor:customPalette".
Definition LS_CUSTOM_PALETTE_ENABLED_KEY : jsstring :=
  js "vite-html-editor:customPaletteEnabled".

(** A value produced by [JSON.parse].  A number is kept as the text that
    its conversion to a string gives ([1], [0.5], [1e+21], [Infinity]), which
    tells two numbers apart except the two zeros; an object is kept as its
    own properties in the order in which they are enumerated. *)
Inductive json : Type :=
  | JNull
  | JBool (b : bool)
  | JNumber (text : jsstring)
  | JString (s : jsstring)
  | JArray (items : list json)
  | JObject (fields : list (jsstring * json)).

(** The settings read at startup.  [themeChoice] is whatever string the cast
    [as ThemeChoice] lets through; the two parsed settings are whatever value
    the cast [as T] lets through. *)
Record Persisted := {
  themeChoice : jsstring;
  headSettings : json;
  customEnabled : bool;
  customPalette : json
}.

Definition default_themeChoice : jsstring := js "auto".

Definition default_headSettings : json :=
  JObject [ (js "pageTitle", JString (js "Vite HTML Editor Export"));
            (js "headHtml", JString []);
            (js "exportBaseName", JString (js "vite-html-editor-export")) ].

Definition default_customPalette : json :=
  JObject [ (js "accent", JString []); (js "bg", JString []);
            (js "panel", JString []); (js "panel2", JString []);
            (js "border", JString []); (js "text", JString []);
            (js "muted", JString []) ].

(** A computation that reads [localStorage]: its value and the keys it asked
    for, in order. *)
Definition Reading (A : Type) : Type := gmap (list N) (list N) -> A * list jsstring.

Definition ret {A} (a : A) : Reading A := fun _ => (a, []).

Definition bind {A B} (m : Reading A) (k : A -> Reading B) : Reading B :=
  fun ls =>
    let '(a, r1) := m ls in
    let '(b, r2) := k a ls in
    (b, r1 ++ r2).

Notation "'let*' x := m 'in' k" := (bind m (fun x => k))
  (at level 10, x name, m at level 100, k at level 200).

(** [localStorage.getItem(key)]: [null] for a missing key. *)
Definition getItem (key : jsstring) : Reading (option jsstring) :=
  fun ls => (ls !! key, [key]).

Section Settings.

(** [JSON.parse]: a value, or the [SyntaxError] it throws. *)
Variable JSON_parse : jsstring -> completion json.

Definition safeJsonParse (raw : option jsstring) (fallback : json) : json :=
  match raw with
  | None | Some [] => fallback
  | Some ((_ :: _) as text) =>
      match JSON_parse text with
      | Normal v => v
      | Throw _ => fallback
      end
  end.

(** The [useState] initialisers of [App], in the order of the source. *)
Definition init_themeChoice : Reading jsstring :=
  let* saved := getItem LS_THEME_KEY in
  ret (match saved with
       | Some choice => choice
       | None => default_themeChoice
       end).

Definition init_headSettings : Reading json :=
  let* raw := getItem LS_HEAD_KEY in
  ret (safeJsonParse raw default_headSettings).

Definition init_customEnabled : Reading bool :=
  let* raw := getItem LS_CUSTOM_PALETTE_ENABLED_KEY in
  ret (match raw with
       | None | Some [] => false
       | Some ((_ :: _) as flag) => bool_decide (flag = js "1")
       end).

Definition init_customPalette : Reading json :=
  let* raw := getItem LS_CUSTOM_PALETTE_KEY in
  ret (safeJsonParse raw default_customPalette).

Definition startup : Reading Persisted :=
  let* theme := init_themeChoice in
  let* head := init_headSettings in
  let* enabled := init_customEnabled in
  let* palette := init_customPalette in
  ret {| themeChoice := theme; headSettings := head;
         customEnabled := enabled; customPalette := palette |}.

End Settings.

(** A stored entry that gives no value: missing, empty, or rejected by
    [JSON.parse]. *)
Definition unreadable (JSON_parse : jsstring -> completion json)
    (raw : option jsstring) : Prop :=
  raw = None \/ raw = Some []
  \/ exists text e, raw = Some text /\ JSON_parse text = Throw e.

(** The values [ThemeChoice] names. *)
Definition is_ThemeChoice (s : jsstring) : Prop :=
  s = js "auto" \/ s = js "dark" \/ s = js "dim" \/ s = js "light".

(** ** The exported document, as the specification describes it *)

(** Markup as a tree: fragments inserted as they are (the user's fragments and
    the white space of the layout), character data, void elements and
    elements with children.  The serialisation is written out on code units
    of its own: a space is 32, an equals sign 61, a double quote 34 and a
    line feed 10. *)
Inductive Markup : Type :=
  | Verbatim (s : jsstring)
  | Text (s : jsstring)
  | Void (tag : string) (attrs : list (string * jsstring))
  | Element (tag : string) (attrs : list (string * jsstring))
            (children : list Markup).

(** The entity a code unit is written as in character data. *)
Definition escape_unit (c : N) : jsstring :=
  if c =? 38 then js "&amp;"
  else if c =? 60 then js "&lt;"
  else if c =? 62 then js "&gt;"
  else if c =? 34 then js "&quot;"
  else if c =? 39 then js "&#39;"
  else [c].

Definition render_attrs (attrs : list (string * jsstring)) : jsstring :=
  concat (map (fun a => [32] ++ js (fst a) ++ [61; 34] ++ snd a ++ [34]) attrs).

(** Serialisation: character data is written entity by entity, fragments
    are inserted as they are. *)
Fixpoint render (m : Markup) : jsstring :=
  match m with
  | Verbatim s => s
  | Text s => flat_map escape_unit s
  | Void tag attrs => js "<" ++ js tag ++ render_attrs attrs ++ js " />"
  | Element tag attrs children =>
      js "<" ++ js tag ++ render_attrs attrs ++ js ">"
      ++ concat (map render children)
      ++ js "</" ++ js tag ++ js ">"
  end.

Definition attribute (name : string) (value : jsstring) : string * jsstring :=
  (name, value).

Definition indent : Markup := Verbatim ([10] ++ js "  ").
Definition newline : Markup := Verbatim [10].

(** [head]: charset, viewport, title, the head fragment, the stylesheet
    link. *)
Definition export_head (title head base : jsstring) : Markup :=
  Element "head" []
    [ indent; Void "meta" [attribute "charset" (js "utf-8")];
      indent; Void "meta" [attribute "name" (js "viewport");
                           attribute "content"
                             (js "width=device-width,initial-scale=1")];
      indent; Element "title" [] [Text title];
      newline; Verbatim head;
      indent; Void "link" [attribute "rel" (js "stylesheet");
                           attribute "href" (js "./" ++ base ++ js ".css")];
      newline ].

(** [body]: the body fragment, then the script. *)
Definition export_body (base html : jsstring) : Markup :=
  Element "body" []
    [ newline; Verbatim html;
      newline; Element "script" [attribute "src" (js "./" ++ base ++ js ".js")] [];
      newline ].

(** Doctype, then [html] with [lang=en], holding [head] and [body]. *)
Definition export_document (title head base html : jsstring) : jsstring :=
  js "<!doctype html>" ++ [10] ++
  render
    (Element "html" [attribute "lang" (js "en")]
       [ newline; export_head title head base;
         newline; export_body base html;
         newline ]).

(** The export base name as the specification words it, up to the fallback:
    the reserved characters and the white space that survive [trim] are
    replaced by dashes, one dash for each run. *)
Definition sanitize (name : jsstring) : jsstring :=
  replace_runs is_whitespace (js "-")
    (replace_runs is_reserved (js "-") (trim name)).

(** ** A reference engine *)

(** An engine small enough to run: a page is a list of components, each a
    tag with its inner markup, a stylesheet kept as text, and the index of the
    selected component.  It keeps markup and rules as the texts it is given,
    and so stands for an engine only on texts that the engine's parsers and
    serialisers give back as they are.  As the engine the program configures
    (no [protectedCss] option is given to [grapesjs.init]), its CSS
    serialiser writes the protected rules in front of the stylesheet; and
    assigning the children of a component from a text returns normally,
    whatever the text. *)
Module RefEngine.

Record Component := {
  tagName : jsstring;
  inner : jsstring
}.

Record Page := {
  body : list Component;
  stylesheet : jsstring;
  selection : option nat
}.

Definition render_component (c : Component) : jsstring :=
  js "<" ++ tagName c ++ js ">" ++ inner c ++ js "</" ++ tagName c ++ js ">".

Definition set_inner (markup : jsstring) (c : Component) : Component :=
  {| tagName := tagName c; inner := markup |}.

Definition set_body (b : list Component) (p : Page) : Page :=
  {| body := b; stylesheet := stylesheet p; selection := selection p |}.

(** The rules the engine's serialiser puts before the stylesheet. *)
Definition protectedCss : jsstring :=
  js "* { box-sizing: border-box; } body {margin: 0;}".

Definition selected (p : Page) : option nat :=
  match selection p with
  | Some i => if (i <? length (body p))%nat then Some i else None
  | None => None
  end.

Definition set_children (i : nat) (markup : jsstring) (p : Page)
  : Page * completion unit :=
  (set_body (alter (set_inner markup) i (body p)) p, Normal tt).

#[global] Instance engine : Engine Page nat := {|
  getHtml p := Normal (concat (map render_component (body p)));
  getCss p := Normal (protectedCss ++ stylesheet p);
  getSelected := selected;
  setStyle css p :=
    {| body := body p; stylesheet := css; selection := selection p |};
  components := set_children
|}.

(** A page with one paragraph, selected or not. *)
Definition paragraph : Component :=
  {| tagName := js "p"; inner := js "hi" |}.

Definition page (sel : option nat) : Page :=
  {| body := [paragraph]; stylesheet := js "body{margin:0;}"; selection := sel |}.

End RefEngine.

(** The settings of the specification's export example: the title T&T and
    the base name site.  With the page of the reference engine they give the
    example's body, a single paragraph. *)
Definition example_settings : HeadSettings :=
  {| pageTitle := js "T&T"; headHtml := []; exportBaseName := js "site" |}.

(** ** A reference [JSON.parse] *)

(** The JSON grammar, by recursive descent: a value, or nothing for a text
    outside the grammar.  A number token is converted to the nearest double
    and kept as the text of that double; the members of an object define its
    properties one after the other, so that a repeated name keeps its place
    and takes the last value, and the properties are enumerated with the
    array indices first, in ascending order. *)
Module RefJSON.

Definition is_json_space (c : N) : bool :=
  (c =? 32) || (c =? 9) || (c =? 10) || (c =? 13).

Fixpoint skip_space (s : jsstring) : jsstring :=
  match s with
  | [] => []
  | c :: t => if is_json_space c then skip_space t else s
  end.

Definition is_digit (c : N) : bool := (48 <=? c) && (c <=? 57).

Definition hex_value (c : N) : option N :=
  if is_digit c then Some (c - 48)
  else if (65 <=? c) && (c <=? 70) then Some (c - 55)
  else if (97 <=? c) && (c <=? 102) then Some (c - 87)
  else None.

(** The longest run of digits at the head of [s], and what follows it. *)
Fixpoint span_digits (s : jsstring) : jsstring * jsstring :=
  match s with
  | [] => ([], [])
  | c :: t =>
      if is_digit c
      then let '(ds, r) := span_digits t in (c :: ds, r)
      else ([], s)
  end.

Definition nonempty_digits (s : jsstring) : option (jsstring * jsstring) :=
  match span_digits s with
  | ([], _) => None
  | (ds, r) => Some (ds, r)
  end.

(** *** Numbers *)

(** A number token, read: its sign, and the decimal [coefficient] and
    [exponent10] with which its magnitude is [coefficient * 10 ^ exponent10].
    [digits] counts the digits of the coefficient as written. *)
Record Decimal := {
  negative : bool;
  coefficient : Z;
  exponent10 : Z;
  digits : Z
}.

Definition digits_value (ds : jsstring) : Z :=
  fold_left (fun acc d => (acc * 10 + (Z.of_N d - 48))%Z) ds 0%Z.

(** A number: an optional minus sign, then a zero or digits without a leading
    zero, then an optional fraction, then an optional exponent.  The result is
    the number read and what follows it. *)
Definition parse_number (s : jsstring) : option (Decimal * jsstring) :=
  let '(minus, s1) :=
    match s with
    | c :: t => if c =? 45 then (true, t) else (false, s)
    | [] => (false, s)
    end in
  '(int, s2) ←
    match s1 with
    | c :: t => if c =? 48 then Some ([c], t) else nonempty_digits s1
    | [] => None
    end;
  '(frac, s3) ←
    match s2 with
    | c :: t =>
        if c =? 46
        then nonempty_digits t
        else Some ([], s2)
    | [] => Some ([], s2)
    end;
  '(exp, s4) ←
    match s3 with
    | c :: t =>
        if (c =? 69) || (c =? 101)
        then
          let '(eminus, t') :=
            match t with
            | d :: u =>
                if d =? 43 then (false, u)
                else if d =? 45 then (true, u)
                else (false, t)
            | [] => (false, t)
            end in
          '(ds, r) ← nonempty_digits t';
          Some (if eminus then (- digits_value ds)%Z else digits_value ds, r)
        else Some (0%Z, s3)
    | [] => Some (0%Z, s3)
    end;
  Some ({| negative := minus;
           coefficient := digits_value (int ++ frac);
           exponent10 := (exp - Z.of_nat (length frac))%Z;
           digits := Z.of_nat (length (int ++ frac)) |}, s4).

(** A double: zero, a magnitude [mantissa * 2 ^ exponent2] with a mantissa
    below [2 ^ 53] and an exponent of at least [-1074], or infinity. *)
Inductive Double : Type :=
  | Zero
  | Finite (mantissa exponent2 : Z)
  | Infinite.

(** The double nearest to [m * 10 ^ e], ties to the even mantissa.  A
    magnitude of [10 ^ 309] or more is beyond the largest double, and one
    below [10 ^ -324] is less than half the smallest. *)
Definition nearest_double (m e nd : Z) : Double :=
  (if m =? 0 then Zero
   else if 309 <=? e then Infinite
   else if e + nd <=? -324 then Zero
   else
     let num := if 0 <=? e then m * 10 ^ e else m in
     let den := if 0 <=? e then 1 else 10 ^ (- e) in
     let k0 := Z.log2 num - Z.log2 den - 52 in
     let q0 := if 0 <=? k0 then num / (den * 2 ^ k0)
               else (num * 2 ^ (- k0)) / den in
     let k1 := if q0 <? 2 ^ 52 then k0 - 1
               else if 2 ^ 53 <=? q0 then k0 + 1
               else k0 in
     let k := Z.max k1 (-1074) in
     let n := if 0 <=? k then num else num * 2 ^ (- k) in
     let d := if 0 <=? k then den * 2 ^ k else den in
     let q := n / d in
     let r := n mod d in
     let up := (d <? 2 * r) || ((d =? 2 * r) && Z.odd q) in
     let q' := if up then q + 1 else q in
     let '(q'', k') := if q' =? 2 ^ 53 then (2 ^ 52, k + 1) else (q', k) in
     if q'' =? 0 then Zero
     else if 971 <? k' then Infinite
     else Finite q'' k')%Z.

(** The decimal digits of a natural number, the most significant first. *)
Fixpoint digits_from (fuel : nat) (n : Z) (acc : jsstring) : jsstring :=
  let acc' := Z.to_N (48 + n mod 10)%Z :: acc in
  match fuel with
  | O => acc'
  | S fuel' => if (n <? 10)%Z then acc' else digits_from fuel' (n / 10)%Z acc'
  end.

Definition digits_of (n : Z) : jsstring :=
  digits_from (Z.to_nat (Z.log2 n)) n [].

Fixpoint strip_zeros_end (ds : jsstring) : jsstring :=
  match ds with
  | [] => []
  | d :: t =>
      match strip_zeros_end t with
      | [] => if d =? 48 then [] else [d]
      | t' => d :: t'
      end
  end.

(** [x >= 10 ^ E] for the magnitude [x = xn / xd]. *)
Definition at_least_power (xn xd E : Z) : bool :=
  (if 0 <=? E then 10 ^ E * xd <=? xn else xd <=? xn * 10 ^ (- E))%Z.

(** The decimal exponent [E] of a magnitude: [10 ^ E <= x < 10 ^ (E + 1)],
    found from an estimate by steps of one. *)
Fixpoint settle_exponent (fuel : nat) (xn xd E : Z) : Z :=
  match fuel with
  | O => E
  | S fuel' =>
      if negb (at_least_power xn xd E) then settle_exponent fuel' xn xd (E - 1)
      else if at_least_power xn xd (E + 1) then settle_exponent fuel' xn xd (E + 1)
      else E
  end.

(** The shortest decimal that the double [q * 2 ^ k] is the nearest double
    of: its digits, without zeros at the end, and the position [n] of the
    decimal point, counted from before the first digit.  With [p] digits the
    two candidates are the decimals next to the double on either side; of two
    that fit, the nearer is taken, and of two equally near the even one. *)
Fixpoint shortest_from (fuel : nat) (p : Z) (q k xn xd E : Z)
  : jsstring * Z :=
  let t := (E - p + 1)%Z in
  let n := (if 0 <=? t then xn else xn * 10 ^ (- t))%Z in
  let d := (if 0 <=? t then xd * 10 ^ t else xd)%Z in
  let lo := (n / d)%Z in
  let r := (n mod d)%Z in
  let hi := (lo + 1)%Z in
  let fits s :=
    match nearest_double s t (p + 1) with
    | Finite q' k' => ((q' =? q) && (k' =? k))%Z
    | _ => false
    end in
  let result s :=
    let ds := digits_of s in
    (strip_zeros_end ds, (t + Z.of_nat (length ds))%Z) in
  let prefer_lo := ((2 * r <? d) || ((2 * r =? d) && Z.even lo))%Z in
  match fuel with
  | O => result lo
  | S fuel' =>
      if fits lo && fits hi then result (if prefer_lo then lo else hi)
      else if fits lo then result lo
      else if fits hi then result hi
      else shortest_from fuel' (p + 1)%Z q k xn xd E
  end.

Definition shortest (q k : Z) : jsstring * Z :=
  let xn := (if 0 <=? k then q * 2 ^ k else q)%Z in
  let xd := (if 0 <=? k then 1 else 2 ^ (- k))%Z in
  let estimate := ((Z.log2 xn - Z.log2 xd) * 30103 / 100000)%Z in
  let E := settle_exponent 8 xn xd estimate in
  shortest_from 17 1 q k xn xd E.

(** The text of a finite non-zero magnitude with the digits [ds] and the
    decimal point at [n]: plain digits up to 21 places, a fraction down to
    six zeros after the point, and the exponent notation beyond. *)
Definition number_layout (ds : jsstring) (n : Z) : jsstring :=
  let p := Z.of_nat (length ds) in
  (if (p <=? n) && (n <=? 21) then ds ++ repeat 48%N (Z.to_nat (n - p))
   else if (0 <? n) && (n <=? 21)
   then take (Z.to_nat n) ds ++ js "." ++ drop (Z.to_nat n) ds
   else if (-6 <? n) && (n <=? 0)
   then js "0." ++ repeat 48%N (Z.to_nat (- n)) ++ ds
   else
     let e := n - 1 in
     let exponent := (if 0 <=? e then js "+" else js "-") ++ digits_of (Z.abs e) in
     match ds with
     | [] | [_] => ds ++ js "e" ++ exponent
     | d :: rest => d :: js "." ++ rest ++ js "e" ++ exponent
     end)%Z.

(** The text of the number a token denotes. *)
Definition number_text (token : Decimal) : jsstring :=
  match nearest_double (coefficient token) (exponent10 token) (digits token) with
  | Zero => js "0"
  | Infinite => if negative token then js "-Infinity" else js "Infinity"
  | Finite q k =>
      let '(ds, n) := shortest q k in
      (if negative token then js "-" else []) ++ number_layout ds n
  end.

(** *** Objects *)

(** An array index: the digits of a number below [2 ^ 32 - 1], with no zero
    in front. *)
Definition array_index (key : jsstring) : option Z :=
  match key with
  | [] => None
  | c :: rest =>
      if forallb is_digit key && implb (c =? 48) (bool_decide (rest = []))
         && (Z.of_nat (length key) <=? 10)%Z
         && (digits_value key <? 4294967295)%Z
      then Some (digits_value key)
      else None
  end.

Definition is_index (key : jsstring) : bool :=
  match array_index key with
  | Some _ => true
  | None => false
  end.

(** Defining a property: a new name goes to the end, a name that is there
    keeps its place and takes the new value. *)
Fixpoint define {A} (key : jsstring) (v : A) (fields : list (jsstring * A))
  : list (jsstring * A) :=
  match fields with
  | [] => [(key, v)]
  | (k, x) :: rest =>
      if bool_decide (k = key) then (k, v) :: rest
      else (k, x) :: define key v rest
  end.

(** A property with an array index, put among those already in ascending
    order. *)
Fixpoint insert_index {A} (i : Z) (field : jsstring * A)
    (sorted : list (Z * (jsstring * A))) : list (Z * (jsstring * A)) :=
  match sorted with
  | [] => [(i, field)]
  | (j, other) :: rest =>
      if (i <? j)%Z then (i, field) :: sorted
      else (j, other) :: insert_index i field rest
  end.

(** The own properties that the members of an object literal leave, in the
    order of enumeration: the array indices in ascending order, then the
    other names in the order of their first definition. *)
Definition own_properties {A} (members : list (jsstring * A))
  : list (jsstring * A) :=
  let defined := fold_left (fun acc kv => define kv.1 kv.2 acc) members [] in
  let indexed :=
    fold_left
      (fun sorted kv =>
         match array_index kv.1 with
         | Some i => insert_index i kv sorted
         | None => sorted
         end)
      defined [] in
  (snd <$> indexed) ++ filter (fun kv => is_index kv.1 = false) defined.

Definition simple_escape (c : N) : option N :=
  if c =? 34 then Some 34
  else if c =? 92 then Some 92
  else if c =? 47 then Some 47
  else if c =? 98 then Some 8
  else if c =? 102 then Some 12
  else if c =? 110 then Some 10
  else if c =? 114 then Some 13
  else if c =? 116 then Some 9
  else None.

(** The characters of a string after its opening quote, up to and including
    the closing one. *)
Fixpoint parse_chars (s : jsstring) : option (jsstring * jsstring) :=
  match s with
  | [] => None
  | c :: t =>
      if c =? 34 then Some ([], t)
      else if c =? 92 then
        match t with
        | [] => None
        | e :: t1 =>
            if e =? 117 then
              match t1 with
              | h1 :: h2 :: h3 :: h4 :: t2 =>
                  a ← hex_value h1; b ← hex_value h2;
                  c' ← hex_value h3; d ← hex_value h4;
                  '(cs, r) ← parse_chars t2;
                  Some ((((a * 16 + b) * 16 + c') * 16 + d) :: cs, r)
              | _ => None
              end
            else
              u ← simple_escape e;
              '(cs, r) ← parse_chars t1;
              Some (u :: cs, r)
        end
      else if c <? 32 then None
      else '(cs, r) ← parse_chars t; Some (c :: cs, r)
  end.

Definition literal (name : string) (v : json) (s : jsstring)
  : option (json * jsstring) :=
  if starts_with (js name) s
  then Some (v, drop (length (js name)) s)
  else None.

Fixpoint parse_value (fuel : nat) (s : jsstring) : option (json * jsstring) :=
  match fuel with
  | O => None
  | S fuel' =>
      match skip_space s with
      | [] => None
      | c :: t =>
          if c =? 123 then
            match skip_space t with
            | c' :: r =>
                if c' =? 125 then Some (JObject [], r)
                else
                  '(ms, r') ← parse_members fuel' t;
                  Some (JObject (own_properties ms), r')
            | [] => None
            end
          else if c =? 91 then
            match skip_space t with
            | c' :: r =>
                if c' =? 93 then Some (JArray [], r)
                else '(vs, r') ← parse_elements fuel' t; Some (JArray vs, r')
            | [] => None
            end
          else if c =? 34 then
            '(cs, r) ← parse_chars t; Some (JString cs, r)
          else if c =? 110 then literal "null" JNull (c :: t)
          else if c =? 116 then literal "true" (JBool true) (c :: t)
          else if c =? 102 then literal "false" (JBool false) (c :: t)
          else
            '(token, r) ← parse_number (c :: t);
            Some (JNumber (number_text token), r)
      end
  end
with parse_elements (fuel : nat) (s : jsstring) : option (list json * jsstring) :=
  match fuel with
  | O => None
  | S fuel' =>
      '(v, r) ← parse_value fuel' s;
      match skip_space r with
      | c :: r' =>
          if c =? 44 then '(vs, r'') ← parse_elements fuel' r'; Some (v :: vs, r'')
          else if c =? 93 then Some ([v], r')
          else None
      | [] => None
      end
  end
with parse_members (fuel : nat) (s : jsstring)
  : option (list (jsstring * json) * jsstring) :=
  match fuel with
  | O => None
  | S fuel' =>
      match skip_space s with
      | q :: t =>
          if q =? 34 then
            '(key, r) ← parse_chars t;
            match skip_space r with
            | c :: r1 =>
                if c =? 58 then
                  '(v, r2) ← parse_value fuel' r1;
                  match skip_space r2 with
                  | c' :: r3 =>
                      if c' =? 44
                      then '(ms, r4) ← parse_members fuel' r3; Some ((key, v) :: ms, r4)
                      else if c' =? 125 then Some ([(key, v)], r3)
                      else None
                  | [] => None
                  end
                else None
            | [] => None
            end
          else None
      | [] => None
      end
  end.

Definition SyntaxError : thrown := ErrorObject (js "Unexpected token in JSON").

(** [JSON.parse(text)]: one value between optional white space. *)
Definition parse (text : jsstring) : completion json :=
  match parse_value (2 * length text + 2) text with
  | Some (v, rest) =>
      match skip_space rest with
      | [] => Normal v
      | _ :: _ => Throw SyntaxError
      end
  | None => Throw SyntaxError
  end.

End RefJSON.

(** A code unit that would open or close a tag or an attribute value. *)
Definition is_markup_delimiter (c : N) : Prop :=
  c = 60 \/ c = 62 \/ c = 34 \/ c = 39.

(** A code unit that sanitisation neither replaces nor produces. *)
Definition is_kept (c : N) : Prop :=
  is_reserved c = false /\ is_whitespace c = false /\ c <> 45.

#[local] Instance is_kept_dec (c : N) : Decision (is_kept c).
Proof. unfold is_kept. apply _. Defined.

(** Source literals are evaluated to their code units. *)
Ltac eval_literals :=
  repeat match goal with
         | |- context [js ?s] =>
             let units := eval vm_compute in (js s) in
             change (js s) with units
         end.

(** * Further definitions *)

(** ** The rest of src/App.tsx *)

(** A code unit that [escapeHtml] rewrites. *)
Definition is_escaped (c : N) : Prop :=
  c = 38 \/ c = 60 \/ c = 62 \/ c = 34 \/ c = 39.

(** Every code unit of the text is white space. *)
Definition is_blank (s : jsstring) : Prop :=
  Forall (fun c => is_whitespace c = true) s.

(** [normalizeColor]: the test of the pattern, a hash sign followed by
    exactly six hexadecimal digits and nothing else. *)
Definition is_hex_digit (c : N) : bool :=
  ((48 <=? c) && (c <=? 57)) || ((97 <=? c) && (c <=? 102))
  || ((65 <=? c) && (c <=? 70)).

Definition is_hex_color (v : jsstring) : bool :=
  match v with
  | [h; d1; d2; d3; d4; d5; d6] =>
      (h =? 35) && forallb is_hex_digit [d1; d2; d3; d4; d5; d6]
  | _ => false
  end.

Definition normalizeColor (v : jsstring) : jsstring :=
  if is_hex_color v then v else js "#4fd1ff".

(** *** Theme and custom palette *)

(** [type CustomPalette]: seven optional colour texts. *)
Module Palette.

Record CustomPalette := {
  bg : option jsstring;
  panel : option jsstring;
  panel2 : option jsstring;
  border : option jsstring;
  text : option jsstring;
  muted : option jsstring;
  accent : option jsstring
}.

End Palette.


Section Theme.

(** What an inline style keeps of a property value: its stored form, or
    nothing when the value does not parse. *)
Variable css_value : jsstring -> option jsstring.

(** [style.setProperty(name, value)]: the empty value removes the property,
    a value that does not parse changes nothing. *)
Definition setProperty (name value : jsstring) (st : gmap (list N) (list N))
  : gmap (list N) (list N) :=
  match value with
  | [] => delete name st
  | _ :: _ =>
      match css_value value with
      | Some kept => <[name := kept]> st
      | None => st
      end
  end.

(** [style.removeProperty(name)] *)
Definition removeProperty (name : jsstring) (st : gmap (list N) (list N))
  : gmap (list N) (list N) :=
  delete name st.

(** [if (custom.field) root.setProperty(name, custom.field)] *)
Definition set_if_truthy (field : option jsstring) (name : jsstring)
    (st : gmap (list N) (list N)) : gmap (list N) (list N) :=
  match field with
  | Some ((_ :: _) as value) => setProperty name value st
  | Some [] | None => st
  end.

Definition applyCustomPaletteVars (custom : Palette.CustomPalette)
    (st : gmap (list N) (list N)) : gmap (list N) (list N) :=
  let st := set_if_truthy (Palette.bg custom) (js "--bg") st in
  let st := set_if_truthy (Palette.panel custom) (js "--panel") st in
  let st := set_if_truthy (Palette.panel2 custom) (js "--panel2") st in
  let st := set_if_truthy (Palette.border custom) (js "--border") st in
  let st := set_if_truthy (Palette.text custom) (js "--text") st in
  let st := set_if_truthy (Palette.muted custom) (js "--muted") st in
  set_if_truthy (Palette.accent custom) (js "--accent") st.

Definition clearCustomPaletteVars (st : gmap (list N) (list N))
  : gmap (list N) (list N) :=
  let st := removeProperty (js "--bg") st in
  let st := removeProperty (js "--panel") st in
  let st := removeProperty (js "--panel2") st in
  let st := removeProperty (js "--border") st in
  let st := removeProperty (js "--text") st in
  let st := removeProperty (js "--muted") st in
  removeProperty (js "--accent") st.

(** The seven conditional assignments as one pass over a list of fields, and
    the seven removals as one pass over a list of names. *)
Definition set_fields (fields : list (list N * option (list N)))
    (st : gmap (list N) (list N)) : gmap (list N) (list N) :=
  fold_left (fun st' nf => set_if_truthy nf.2 nf.1 st') fields st.

Definition remove_names (names : list (list N))
    (st : gmap (list N) (list N)) : gmap (list N) (list N) :=
  fold_left (fun st' name => removeProperty name st') names st.



End Theme.

(** The names of the seven custom properties. *)
Definition palette_properties : list jsstring :=
  [ js "--bg"; js "--panel"; js "--panel2"; js "--border"; js "--text";
    js "--muted"; js "--accent" ].

(** *** Persisting the settings *)

(** The four effects that write the settings back: [setItem] for the theme
    choice, for the head settings and the custom palette as JSON, and for the
    custom-palette flag as 1 or 0. *)
Definition persist (JSON_stringify : json -> jsstring) (p : Persisted)
    (ls : gmap (list N) (list N)) : gmap (list N) (list N) :=
  let ls := <[LS_THEME_KEY := themeChoice p]> ls in
  let ls := <[LS_HEAD_KEY := JSON_stringify (headSettings p)]> ls in
  let ls := <[LS_CUSTOM_PALETTE_ENABLED_KEY :=
                if customEnabled p then js "1" else js "0"]> ls in
  <[LS_CUSTOM_PALETTE_KEY := JSON_stringify (customPalette p)]> ls.

(** The fields of a palette with the custom property each one feeds. *)
Definition palette_fields (custom : Palette.CustomPalette)
  : list (jsstring * option jsstring) :=
  [ (js "--bg", Palette.bg custom); (js "--panel", Palette.panel custom);
    (js "--panel2", Palette.panel2 custom);
    (js "--border", Palette.border custom);
    (js "--text", Palette.text custom); (js "--muted", Palette.muted custom);
    (js "--accent", Palette.accent custom) ].

(** A field that [if (custom.field)] skips: missing or empty. *)
Definition is_falsy (field : option jsstring) : Prop :=
  field = None \/ field = Some [].

(** ** A reference [JSON.stringify] *)

(** The text of a value as [JSON.parse] makes them: strings quoted with the
    escapes of [JSON.stringify] (the short escapes, [\u] escapes for the other
    control characters and for lone surrogates), finite numbers as their
    texts and the others as [null], properties in their order. *)
Module RefStringify.

Definition hex_digit (n : N) : N :=
  if n <? 10 then 48 + n else 87 + n.

Definition unicode_escape (c : N) : jsstring :=
  js "\u" ++ [ hex_digit (c / 4096 mod 16); hex_digit (c / 256 mod 16);
               hex_digit (c / 16 mod 16); hex_digit (c mod 16) ].

Definition is_high_surrogate (c : N) : bool := (55296 <=? c) && (c <=? 56319).
Definition is_low_surrogate (c : N) : bool := (56320 <=? c) && (c <=? 57343).

(** [after_high] says that the previous code unit was a high surrogate that
    this low surrogate completes. *)
Fixpoint quote_units (after_high : bool) (s : jsstring) : jsstring :=
  match s with
  | [] => []
  | c :: t =>
      if c =? 8 then js "\b" ++ quote_units false t
      else if c =? 9 then js "\t" ++ quote_units false t
      else if c =? 10 then js "\n" ++ quote_units false t
      else if c =? 12 then js "\f" ++ quote_units false t
      else if c =? 13 then js "\r" ++ quote_units false t
      else if c =? 34 then [92; 34] ++ quote_units false t
      else if c =? 92 then [92; 92] ++ quote_units false t
      else if c <? 32 then unicode_escape c ++ quote_units false t
      else if is_high_surrogate c then
        match t with
        | d :: _ =>
            if is_low_surrogate d then c :: quote_units true t
            else unicode_escape c ++ quote_units false t
        | [] => unicode_escape c
        end
      else if is_low_surrogate c then
        (if after_high then [c] else unicode_escape c) ++ quote_units false t
      else c :: quote_units false t
  end.

Definition quote (s : jsstring) : jsstring := dq ++ quote_units false s ++ dq.

Fixpoint join (sep : jsstring) (parts : list jsstring) : jsstring :=
  match parts with
  | [] => []
  | [p] => p
  | p :: rest => p ++ sep ++ join sep rest
  end.

Fixpoint stringify (v : json) : jsstring :=
  match v with
  | JNull => js "null"
  | JBool true => js "true"
  | JBool false => js "false"
  | JNumber text =>
      if bool_decide (text = js "Infinity" \/ text = js "-Infinity"
                      \/ text = js "NaN")
      then js "null"
      else text
  | JString s => quote s
  | JArray items => js "[" ++ join (js ",") (map stringify items) ++ js "]"
  | JObject fields =>
      js "{"
      ++ join (js ",")
           (map (fun '(key, value) => quote key ++ js ":" ++ stringify value)
              fields)
      ++ js "}"
  end.

End RefStringify.

(** ** The rest of src/code/CodeTabs.tsx *)

Section Frames.

Context {D Node : Type} `{!Engine D Node}.

(** A run of [sync] that no frame makes: the call in the body of the mount
    effect, and the calls of its two timers.  [rafRef] and the waiting
    callbacks are not touched. *)
Definition sync_now (w : World D) : World D :=
  {| engine := engine w; view := sync (engine w) (view w);
     rafRef := rafRef w;
     frame_counter := frame_counter w;
     frame_callbacks := frame_callbacks w;
     regenerations := S (regenerations w) |}.

(** The mounted component: its world, and how many of the timers set by the
    mount effect have not fired yet. *)
Record Mounted := {
  world : World D;
  timers : nat
}.

(** The effect of [CodeTabs] for an editor: [sync()] at once,
    [setTimeout(sync, 0)] and [setTimeout(sync, 200)], then the eight
    subscriptions of [scheduleSync]. *)
Definition mount (w : World D) : Mounted :=
  {| world := sync_now w; timers := 2 |}.

(** What the mounted component lives through: actions of the engine,
    rendering frames, and the timers of the mount effect, in any order. *)
Inductive Tick : Type :=
  | Act (a : Action D)
  | Frame
  | Timer.

Definition tick (m : Mounted) (t : Tick) : Mounted :=
  match t with
  | Act a => {| world := step (world m) a; timers := timers m |}
  | Frame => {| world := run_frame (world m); timers := timers m |}
  | Timer =>
      match timers m with
      | O => m
      | S rest => {| world := sync_now (world m); timers := rest |}
      end
  end.

Definition play (ts : list Tick) (m : Mounted) : Mounted :=
  fold_left tick ts m.

Definition is_frame (t : Tick) : bool :=
  match t with
  | Frame => true
  | Act _ | Timer => false
  end.

(** The number of frames of a history. *)
Definition frames (ts : list Tick) : nat :=
  length (filter (fun t => is_frame t = true) ts).

End Frames.

Arguments Tick : clear implicits.
Arguments Mounted : clear implicits.

(** [setJsValue], the setter [CodeTabs] receives from [App]. *)
Definition setJsValue (j : jsstring) (v : CodeView) : CodeView :=
  {| tab := tab v; htmlValue := htmlValue v; cssValue := cssValue v;
     jsValue := j; status := status v |}.

(** [value] and [setValue]: the text of the active tab and its setter. *)
Definition value (v : CodeView) : jsstring :=
  match tab v with
  | html_tab => htmlValue v
  | css_tab => cssValue v
  | js_tab => jsValue v
  end.

Definition setValue (text : jsstring) (v : CodeView) : CodeView :=
  match tab v with
  | html_tab => setHtmlValue text v
  | css_tab => setCssValue text v
  | js_tab => setJsValue text v
  end.

Section Formatting.

(** [prettier.format] with the parser and the plug-ins that [formatCurrent]
    picks for a tab, awaited: the formatted text, or what it throws. *)
Variable prettier_format : Tab -> jsstring -> completion jsstring.

Definition formatCurrent (v : CodeView) : CodeView :=
  let formatted :=
    match tab v with
    | html_tab =>
        out ← prettier_format html_tab (htmlValue v);
        mret (setHtmlValue (trim out) v)
    | css_tab =>
        out ← prettier_format css_tab (cssValue v);
        mret (setCssValue (trim out) v)
    | js_tab =>
        out ← prettier_format js_tab (jsValue v);
        mret (setJsValue (trim out) v)
    end in
  match formatted with
  | Normal v' => setStatus (js "Formatted.") v'
  | Throw e => setStatus (js "Format failed: " ++ cause_text e) v
  end.

End Formatting.

(** ** src/layout/CodeDrawer.tsx *)

Module Drawer.

Section Drawer.

(** A height in percent of the viewport.  [onMove] computes it from the
    pointer position in floating point; here a move carries the number it
    computed. *)
Context {Pct : Type}.

(** The drawer: its two [useState] cells, its two refs, the inline style of
    the body that dragging sets, and the window's animation-frame machinery.
    [updates] counts the calls of [setHeightPct]. *)
Record State := {
  heightPct : Pct;
  isDragging : bool;
  rafRef : option N;
  pendingPctRef : Pct;
  cursor : jsstring;
  userSelect : jsstring;
  frame_counter : N;
  frame_callbacks : list N;
  updates : nat
}.

(** [onMouseDown] of the drag handle. *)
Definition startDrag (s : State) : State :=
  {| heightPct := heightPct s; isDragging := true; rafRef := rafRef s;
     pendingPctRef := pendingPctRef s;
     cursor := js "row-resize"; userSelect := js "none";
     frame_counter := frame_counter s; frame_callbacks := frame_callbacks s;
     updates := updates s |}.

(** [cancelAnimationFrame(handle)] *)
Definition cancelAnimationFrame (handle : N) (callbacks : list N) : list N :=
  filter (fun h => h <> handle) callbacks.

Definition stopDrag (s : State) : State :=
  let cancelled := truthy (rafRef s) in
  {| heightPct := heightPct s; isDragging := false;
     rafRef := if cancelled then None else rafRef s;
     pendingPctRef := pendingPctRef s;
     cursor := []; userSelect := [];
     frame_counter := frame_counter s;
     frame_callbacks :=
       match rafRef s with
       | Some handle =>
           if cancelled then cancelAnimationFrame handle (frame_callbacks s)
           else frame_callbacks s
       | None => frame_callbacks s
       end;
     updates := updates s |}.

(** [onMove]: the new height is parked in [pendingPctRef]; a callback is
    requested unless one is waiting. *)
Definition onMove (newPct : Pct) (s : State) : State :=
  if truthy (rafRef s)
  then {| heightPct := heightPct s; isDragging := isDragging s;
          rafRef := rafRef s; pendingPctRef := newPct;
          cursor := cursor s; userSelect := userSelect s;
          frame_counter := frame_counter s;
          frame_callbacks := frame_callbacks s; updates := updates s |}
  else
    let handle := frame_counter s + 1 in
    {| heightPct := heightPct s; isDragging := isDragging s;
       rafRef := Some handle; pendingPctRef := newPct;
       cursor := cursor s; userSelect := userSelect s;
       frame_counter := handle;
       frame_callbacks := frame_callbacks s ++ [handle];
       updates := updates s |}.

(** The callback of [onMove]: it clears [rafRef] and sets the height to what
    [pendingPctRef] holds by then. *)
Definition frame_callback (s : State) : State :=
  {| heightPct := pendingPctRef s; isDragging := isDragging s;
     rafRef := None; pendingPctRef := pendingPctRef s;
     cursor := cursor s; userSelect := userSelect s;
     frame_counter := frame_counter s;
     frame_callbacks := frame_callbacks s; updates := S (updates s) |}.

Definition run_frame (s : State) : State :=
  fold_left (fun s' _ => frame_callback s') (frame_callbacks s)
    {| heightPct := heightPct s; isDragging := isDragging s;
       rafRef := rafRef s; pendingPctRef := pendingPctRef s;
       cursor := cursor s; userSelect := userSelect s;
       frame_counter := frame_counter s;
       frame_callbacks := []; updates := updates s |}.

(** What the window sends while the drawer is mounted.  The listeners of the
    window are attached while [isDragging] holds. *)
Inductive Event : Type :=
  | MouseDown
  | MouseMove (newPct : Pct)
  | MouseUp
  | MouseLeave
  | Blur
  | KeyDown (key : jsstring)
  | CloseButton.

Definition handle (s : State) (e : Event) : State :=
  match e with
  | MouseDown => startDrag s
  | CloseButton => stopDrag s
  | MouseMove newPct => if isDragging s then onMove newPct s else s
  | MouseUp | MouseLeave | Blur => if isDragging s then stopDrag s else s
  | KeyDown key =>
      if isDragging s
      then (if bool_decide (key = js "Escape") then stopDrag s else s)
      else s
  end.

(** [rafRef] and the waiting callbacks agree, and a callback waits only
    during a drag. *)
Definition coherent (s : State) : Prop :=
  match rafRef s with
  | None => frame_callbacks s = []
  | Some h => h <> 0 /\ frame_callbacks s = [h] /\ isDragging s = true
  end.

(** Events and rendering frames, in any order. *)
Inductive Tick : Type :=
  | Ev (e : Event)
  | Frame.

Definition tick (s : State) (t : Tick) : State :=
  match t with
  | Ev e => handle s e
  | Frame => run_frame s
  end.

Definition play (ts : list Tick) (s : State) : State :=
  fold_left tick ts s.

End Drawer.

Arguments State : clear implicits.
Arguments Event : clear implicits.
Arguments Tick : clear implicits.

End Drawer.

(** ** src/App.tsx: saving and loading a template *)

Module Template.

Definition LS_PROJECT_KEY : jsstring := js "vite-html-editor:projectData".

(** The state of [App] that a template carries.  At run time the setters
    take whatever [loadTemplate] hands them, so the values that come from a
    parsed text are kept as parsed values. *)
Record AppState := {
  jsValue : jsstring;
  headSettings : json;
  themeChoice : json;
  customEnabled : bool;
  customPalette : json
}.

Definition setJsValue (t : jsstring) (a : AppState) : AppState :=
  {| jsValue := t; headSettings := headSettings a;
     themeChoice := themeChoice a; customEnabled := customEnabled a;
     customPalette := customPalette a |}.

Definition setHeadSettings (h : json) (a : AppState) : AppState :=
  {| jsValue := jsValue a; headSettings := h;
     themeChoice := themeChoice a; customEnabled := customEnabled a;
     customPalette := customPalette a |}.

Definition setThemeChoice (t : json) (a : AppState) : AppState :=
  {| jsValue := jsValue a; headSettings := headSettings a;
     themeChoice := t; customEnabled := customEnabled a;
     customPalette := customPalette a |}.

Definition setCustomEnabled (b : bool) (a : AppState) : AppState :=
  {| jsValue := jsValue a; headSettings := headSettings a;
     themeChoice := themeChoice a; customEnabled := b;
     customPalette := customPalette a |}.

Definition setCustomPalette (p : json) (a : AppState) : AppState :=
  {| jsValue := jsValue a; headSettings := headSettings a;
     themeChoice := themeChoice a; customEnabled := customEnabled a;
     customPalette := p |}.

(** What the two functions call outside [App]: [editor.getProjectData()] and
    [editor.loadProjectData(data)], the latter inside [try], where it may
    throw after changing the engine; [JSON.parse] and [JSON.stringify];
    whether the number with a given text is truthy (neither zero nor NaN);
    and the [TypeError] of reading the named property of [null]. *)
Class Host (D : Type) := {
  getProjectData : D -> json;
  loadProjectData : option json -> D -> D * completion unit;
  JSON_parse : jsstring -> completion json;
  JSON_stringify : json -> jsstring;
  number_truthy : jsstring -> bool;
  null_access : jsstring -> thrown
}.

Section Template.

Context {D : Type} `{!Host D}.

(** What [App] and its collaborators hold: the editor once it is ready, the
    state, [localStorage], and the messages shown by [alert], oldest first. *)
Record Session := {
  editor : option D;
  app : AppState;
  storage : gmap (list N) (list N);
  alerts : list jsstring
}.

Definition alert (m : jsstring) (s : Session) : Session :=
  {| editor := editor s; app := app s; storage := storage s;
     alerts := alerts s ++ [m] |}.

(** The member of a parsed object that reading [object.key] finds: the last
    one of that name. *)
Definition member (key : jsstring) (fields : list (jsstring * json))
  : option json :=
  fold_left
    (fun found kv => if bool_decide (kv.1 = key) then Some kv.2 else found)
    fields None.

(** [parsed.key] for the keys [loadTemplate] reads, none of which a string,
    a number, a boolean or an array has: [undefined] for a missing member,
    and a [TypeError] on [null]. *)
Definition get (parsed : json) (key : jsstring) : completion (option json) :=
  match parsed with
  | JNull => Throw (null_access key)
  | JObject fields => Normal (member key fields)
  | JBool _ | JNumber _ | JString _ | JArray _ => Normal None
  end.

(** Truthiness of what a property read gave. *)
Definition truthy_value (v : option json) : bool :=
  match v with
  | None | Some JNull => false
  | Some (JBool b) => b
  | Some (JNumber text) => number_truthy text
  | Some (JString s) => match s with [] => false | _ :: _ => true end
  | Some (JArray _) | Some (JObject _) => true
  end.

(** The object literal that [saveTemplate] serialises; [now] is the text of
    [Date.now()]. *)
Definition saved_object (data : json) (a : AppState) (now : jsstring) : json :=
  JObject
    [ (js "data", data);
      (js "jsValue", JString (jsValue a));
      (js "headSettings", headSettings a);
      (js "themeChoice", themeChoice a);
      (js "customEnabled", JBool (customEnabled a));
      (js "customPalette", customPalette a);
      (js "savedAt", JNumber now) ].

Definition saveTemplate (now : jsstring) (s : Session) : Session :=
  match editor s with
  | None => s
  | Some ed =>
      let data := getProjectData ed in
      alert (js "Template saved (localStorage).")
        {| editor := editor s; app := app s;
           storage :=
             <[LS_PROJECT_KEY := JSON_stringify (saved_object data (app s) now)]>
               (storage s);
           alerts := alerts s |}
  end.

(** A step of the [try] block of [loadTemplate]: it changes the session and
    ends normally or with a [throw]. *)
Definition Step (A : Type) : Type := Session -> Session * completion A.

#[local] Instance step_ret : MRet Step := fun A a s => (s, Normal a).

#[local] Instance step_bind : MBind Step :=
  fun A B (k : A -> Step B) (m : Step A) s =>
    match m s with
    | (s', Normal a) => k a s'
    | (s', Throw e) => (s', Throw e)
    end.

Definition lift {A} (c : completion A) : Step A := fun s => (s, c).

Definition update (f : AppState -> AppState) : Step unit :=
  fun s =>
    ({| editor := editor s; app := f (app s); storage := storage s;
        alerts := alerts s |}, Normal tt).

Definition say (m : jsstring) : Step unit := fun s => (alert m s, Normal tt).

(** [editor.loadProjectData(data)] on the editor the handler closed over. *)
Definition load_data (ed : D) (data : option json) : Step unit :=
  fun s =>
    let '(ed', outcome) := loadProjectData data ed in
    ({| editor := Some ed'; app := app s; storage := storage s;
        alerts := alerts s |}, outcome).

Definition skip : Step unit := mret tt.

(** [if (typeof x === "string") set(x)], [if (typeof x === "boolean") set(x)]
    and [if (x) set(x)], on what a property read gave. *)
Definition when_string (x : option json)
    (set : jsstring -> AppState -> AppState) : Step unit :=
  match x with
  | Some (JString t) => update (set t)
  | _ => skip
  end.

Definition when_boolean (x : option json)
    (set : bool -> AppState -> AppState) : Step unit :=
  match x with
  | Some (JBool b) => update (set b)
  | _ => skip
  end.

Definition when_truthy (x : option json)
    (set : json -> AppState -> AppState) : Step unit :=
  match x with
  | Some value => if truthy_value x then update (set value) else skip
  | None => skip
  end.

(** The body of the [try] block. *)
Definition load_steps (ed : D) (raw : jsstring) : Step unit :=
  parsed ← lift (JSON_parse raw);
  data ← lift (get parsed (js "data"));
  _ ← load_data ed data;
  saved_js ← lift (get parsed (js "jsValue"));
  _ ← when_string saved_js setJsValue;
  saved_head ← lift (get parsed (js "headSettings"));
  _ ← when_truthy saved_head setHeadSettings;
  saved_theme ← lift (get parsed (js "themeChoice"));
  _ ← when_truthy saved_theme setThemeChoice;
  saved_enabled ← lift (get parsed (js "customEnabled"));
  _ ← when_boolean saved_enabled setCustomEnabled;
  saved_palette ← lift (get parsed (js "customPalette"));
  _ ← when_truthy saved_palette setCustomPalette;
  say (js "Template loaded.").

(** The message of the [catch] block. *)
Definition failure_message (e : thrown) : jsstring :=
  js "Failed to load template: " ++ cause_text e.

Definition loadTemplate (s : Session) : Session :=
  match editor s with
  | None => s
  | Some ed =>
      match storage s !! LS_PROJECT_KEY with
      | None | Some [] => alert (js "No saved template found.") s
      | Some ((_ :: _) as raw) =>
          match load_steps ed raw s with
          | (s', Normal _) => s'
          | (s', Throw e) => alert (failure_message e) s'
          end
      end
  end.

(** What the five guarded setters make of a state, given a parsed value
    that is not [null]. *)
Definition field (parsed : json) (key : jsstring) : option json :=
  match parsed with
  | JObject fields => member key fields
  | _ => None
  end.

Definition string_set (x : option json)
    (set : jsstring -> AppState -> AppState) (a : AppState) : AppState :=
  match x with
  | Some (JString t) => set t a
  | _ => a
  end.

Definition boolean_set (x : option json)
    (set : bool -> AppState -> AppState) (a : AppState) : AppState :=
  match x with
  | Some (JBool b) => set b a
  | _ => a
  end.

Definition truthy_set (x : option json)
    (set : json -> AppState -> AppState) (a : AppState) : AppState :=
  match x with
  | Some value => if truthy_value x then set value a else a
  | None => a
  end.

Definition loaded (parsed : json) (a : AppState) : AppState :=
  truthy_set (field parsed (js "customPalette")) setCustomPalette
    (boolean_set (field parsed (js "customEnabled")) setCustomEnabled
       (truthy_set (field parsed (js "themeChoice")) setThemeChoice
          (truthy_set (field parsed (js "headSettings")) setHeadSettings
             (string_set (field parsed (js "jsValue")) setJsValue a)))).

Definition set_app (a : AppState) (s : Session) : Session :=
  {| editor := editor s; app := a; storage := storage s; alerts := alerts s |}.

Definition set_editor (ed : D) (s : Session) : Session :=
  {| editor := Some ed; app := app s; storage := storage s;
     alerts := alerts s |}.

End Template.

Arguments Session : clear implicits.

(** An editor that holds its project data as a parsed value and accepts only
    an object as project data, with the reference parser and serialiser and
    the [TypeError] of V8, to run the two functions on. *)
Definition example_loadProjectData (data : option json) (d : json)
  : json * completion unit :=
  match data with
  | Some (JObject fields) => (JObject fields, Normal tt)
  | _ => (d, Throw (ErrorObject (js "Invalid project data")))
  end.

Definition example_null_access (key : jsstring) : thrown :=
  ErrorObject
    (js "Cannot read properties of null (reading '" ++ key ++ js "')").

(** A number is falsy when it is a zero, whose text is [0], or [NaN]. *)
Definition example_number_truthy (text : jsstring) : bool :=
  negb (bool_decide (text = js "0" \/ text = js "NaN")).

Definition example_host : Host json :=
  {| getProjectData := fun d => d;
     loadProjectData := example_loadProjectData;
     JSON_parse := RefJSON.parse;
     JSON_stringify := RefStringify.stringify;
     number_truthy := example_number_truthy;
     null_access := example_null_access |}.

Definition example_app : AppState :=
  {| jsValue := js "console.log(1 < 2);";
     headSettings := JObject [ (js "title", JString (js "Home")) ];
     themeChoice := JString (js "dark");
     customEnabled := true;
     customPalette := JObject [ (js "accent", JString (js "#ff0000")) ] |}.

Definition example_project : json :=
  JObject [ (js "pages", JArray [ JObject [ (js "id", JString (js "p1")) ] ]) ].

End Template.


(** * Properties *)

(** ** JavaScript strings *)

Lemma or_else_nil (s : jsstring) : or_else s [] = s.
Proof. by destruct s. Qed.

Lemma replaceAll_unit (p : N) (rep s : jsstring) :
  replaceAll [p] rep s = flat_map (fun c => if p =? c then rep else [c]) s.
Proof.
  unfold replaceAll.
  induction s as [|c t IH]; [done|].
  cbn [replaceAll_from starts_with length Nat.pred flat_map].
  rewrite andb_true_r.
  destruct (p =? c); by rewrite IH.
Qed.

(** The five replacements of [escapeHtml], done one after the other, amount
    to writing each code unit as its entity. *)
Lemma escapeHtml_units (s : jsstring) :
  escapeHtml s = flat_map escape_unit s.
Proof.
  unfold escapeHtml.
  change (js "'") with [39]; change dq with [34]; change (js ">") with [62];
    change (js "<") with [60]; change (js "&") with [38].
  rewrite !replaceAll_unit.
  induction s as [|c t IH]; [done|].
  cbn [flat_map]. rewrite !flat_map_app, IH. f_equal.
  unfold escape_unit.
  destruct (N.eqb_spec 38 c) as [<-|H38]; [done|].
  destruct (N.eqb_spec 60 c) as [<-|H60]; [done|].
  destruct (N.eqb_spec 62 c) as [<-|H62]; [done|].
  destruct (N.eqb_spec 34 c) as [<-|H34]; [done|].
  destruct (N.eqb_spec 39 c) as [<-|H39]; [done|].
  repeat (cbn [flat_map app];
          match goal with
          | |- context [?k =? c] => rewrite (proj2 (N.eqb_neq k c)) by done
          | |- context [c =? ?k] => rewrite (proj2 (N.eqb_neq c k)) by done
          end).
  done.
Qed.

Lemma escapeHtml_no_delimiter (s : jsstring) :
  Forall (fun c => ~ is_markup_delimiter c) (escapeHtml s).
Proof.
  rewrite escapeHtml_units. apply Forall_flat_map, Forall_forall.
  intros c _. unfold escape_unit, is_markup_delimiter.
  repeat match goal with
         | |- context [c =? ?k] => destruct (N.eqb_spec c k)
         end;
    subst; eval_literals;
    repeat (apply Forall_cons_2; [intros [?|[?|[?|?]]]; lia|]);
    apply Forall_nil_2.
Qed.

(** ** Export: document shape, title and base name *)

(** The template literal of the source and the tree of the specification
    serialise to the same text. *)
Lemma htmlDoc_export_document (title head base html : jsstring) :
  htmlDoc title head base html = export_document title head base html.
Proof.
  unfold htmlDoc, export_document, export_head, export_body, indent, newline,
    attribute.
  cbn [render render_attrs map concat fst snd].
  rewrite escapeHtml_units.
  unfold attr, nl, dq. eval_literals.
  rewrite <- ?app_assoc. cbn [app].
  reflexivity.
Qed.

Lemma starts_with_prefix (pat s : jsstring) :
  starts_with pat s = true -> exists post, s = pat ++ post.
Proof.
  revert s. induction pat as [|p pat IH]; intros s Hs.
  - by exists s.
  - destruct s as [|c s]; [done|]. cbn in Hs.
    apply andb_prop in Hs as [Hpc Hrest].
    apply N.eqb_eq in Hpc as ->.
    destruct (IH _ Hrest) as [post ->]. by exists post.
Qed.

Lemma includesb_includes (needle hay : jsstring) :
  includesb needle hay = true -> includes needle hay.
Proof.
  induction hay as [|c t IH]; cbn [includesb]; intros Hi.
  - rewrite orb_false_r in Hi.
    destruct (starts_with_prefix _ _ Hi) as [post ->]. by exists [], post.
  - apply orb_prop in Hi as [Hi|Hi].
    + destruct (starts_with_prefix _ _ Hi) as [post ->]. by exists [], post.
    + destruct (IH Hi) as (pre & post & ->). by exists (c :: pre), post.
Qed.

Lemma includes_refl (s : jsstring) : includes s s.
Proof. exists [], []. by rewrite app_nil_r. Qed.

Lemma includes_trans (a b c : jsstring) :
  includes a b -> includes b c -> includes a c.
Proof.
  intros (p1 & q1 & ->) (p2 & q2 & ->).
  exists (p2 ++ p1), (q1 ++ q2). by rewrite <- !app_assoc.
Qed.

Lemma includes_app_l (needle a b : jsstring) :
  includes needle a -> includes needle (a ++ b).
Proof. intros (p & q & ->). exists p, (q ++ b). by rewrite <- !app_assoc. Qed.

Lemma includes_app_r (needle a b : jsstring) :
  includes needle b -> includes needle (a ++ b).
Proof. intros (p & q & ->). exists (a ++ p), q. by rewrite <- !app_assoc. Qed.

Lemma includes_concat (needle : jsstring) (parts : list (list N)) :
  needle ∈ parts -> includes needle (concat parts).
Proof.
  induction 1 as [x l|x y l _ IH]; cbn [concat].
  - apply includes_app_l, includes_refl.
  - by apply includes_app_r.
Qed.

(** The text of a child occurs in the text of its parent. *)
Lemma includes_child (parent child : Markup) :
  match parent with
  | Element _ _ children => child ∈ children
  | _ => False
  end ->
  includes (render child) (render parent).
Proof.
  destruct parent as [| | |tag attrs children]; try done. intros Hin.
  cbn [render]. do 4 apply includes_app_r. apply includes_app_l.
  apply includes_concat. by apply list_elem_of_fmap_2.
Qed.

Lemma title_element (title : jsstring) :
  render (Element "title" [] [Text title])
  = js "<title>" ++ escapeHtml title ++ js "</title>".
Proof. rewrite escapeHtml_units. cbn. by rewrite app_nil_r. Qed.

(** *** Runs and trimming *)

Lemma filter_none (P : N -> Prop) `{!forall c, Decision (P c)} (l : jsstring) :
  Forall (fun c => ~ P c) l -> filter P l = [].
Proof.
  induction 1 as [|c r Hc _ IH]; [done|]. by rewrite filter_cons_False.
Qed.

Section Runs.

Variables (cls : N -> bool) (rep : jsstring).

Lemma replace_runs_from_Forall (P : N -> Prop) (in_run : bool) (s : jsstring) :
  Forall P rep -> Forall P s -> Forall P (replace_runs_from in_run cls rep s).
Proof.
  intros Hrep Hs. revert in_run.
  induction Hs as [|c t Hc _ IH]; intros in_run; cbn [replace_runs_from].
  - constructor.
  - destruct (cls c).
    + apply Forall_app. split; [by destruct in_run|apply IH].
    + constructor; [done|apply IH].
Qed.

Lemma replace_runs_from_clean (in_run : bool) (s : jsstring) :
  Forall (fun c => cls c = false) rep ->
  Forall (fun c => cls c = false) (replace_runs_from in_run cls rep s).
Proof.
  intros Hrep. revert in_run.
  induction s as [|c t IH]; intros in_run; cbn [replace_runs_from].
  - constructor.
  - destruct (cls c) eqn:Hc.
    + apply Forall_app. split; [by destruct in_run|apply IH].
    + constructor; [done|apply IH].
Qed.

(** What a replacement of runs leaves alone: the code units outside the
    class, in their order. *)
Lemma replace_runs_from_filter (P : N -> Prop) `{!forall c, Decision (P c)}
    (in_run : bool) (s : jsstring) :
  (forall c, cls c = true -> ~ P c) ->
  Forall (fun c => ~ P c) rep ->
  filter P (replace_runs_from in_run cls rep s) = filter P s.
Proof.
  intros Hcls Hrep.
  pose proof (filter_none P rep Hrep) as Hnil.
  revert in_run.
  induction s as [|c t IH]; intros in_run; cbn [replace_runs_from]; [done|].
  destruct (cls c) eqn:Hc.
  - rewrite filter_app, IH, (filter_cons_False _ c) by auto.
    destruct in_run; [done|by rewrite Hnil].
  - by rewrite !filter_cons, IH.
Qed.

End Runs.

Lemma trimStart_filter (P : N -> Prop) `{!forall c, Decision (P c)}
    (s : jsstring) :
  (forall c, is_whitespace c = true -> ~ P c) ->
  filter P (trimStart s) = filter P s.
Proof.
  intros Hws. induction s as [|c t IH]; cbn [trimStart]; [done|].
  destruct (is_whitespace c) eqn:Hc; [|done].
  by rewrite IH, (filter_cons_False _ c) by auto.
Qed.

Lemma trimEnd_filter (P : N -> Prop) `{!forall c, Decision (P c)}
    (s : jsstring) :
  (forall c, is_whitespace c = true -> ~ P c) ->
  filter P (trimEnd s) = filter P s.
Proof.
  intros Hws. induction s as [|c t IH]; cbn [trimEnd]; [done|].
  destruct (trimEnd t) as [|x l] eqn:Ht.
  - rewrite filter_cons, <- IH, filter_nil.
    destruct (is_whitespace c) eqn:Hc.
    + by rewrite decide_False by auto.
    + by rewrite filter_cons.
  - by rewrite !(filter_cons _ c), IH.
Qed.

Lemma sanitize_clean (name : jsstring) :
  Forall (fun c => is_reserved c = false /\ is_whitespace c = false)
    (sanitize name).
Proof.
  unfold sanitize, replace_runs. apply Forall_and. split.
  - apply replace_runs_from_Forall; [by repeat constructor|].
    apply replace_runs_from_clean. by repeat constructor.
  - apply replace_runs_from_clean. by repeat constructor.
Qed.

Lemma sanitize_kept (name : jsstring) :
  filter is_kept (sanitize name) = filter is_kept name.
Proof.
  unfold sanitize, replace_runs, trim.
  rewrite !replace_runs_from_filter, trimEnd_filter, trimStart_filter;
    first done;
    try (intros c Hc [? [? ?]]; congruence);
    repeat constructor; intros [? [? ?]]; done.
Qed.

(** *** What [trim] leaves *)

Lemma trimStart_nil (s : jsstring) : trimStart s = [] <-> is_blank s.
Proof.
  unfold is_blank. induction s as [|c t IH]; cbn [trimStart].
  - split; [constructor|done].
  - destruct (is_whitespace c) eqn:Hc.
    + rewrite IH. split; [by constructor|by inversion 1].
    + split; [done|]. inversion 1; congruence.
Qed.

Lemma trimStart_blank_free (s : jsstring) :
  match trimStart s with
  | [] => True
  | c :: _ => is_whitespace c = false
  end.
Proof.
  induction s as [|c t IH]; cbn [trimStart]; [done|].
  by destruct (is_whitespace c) eqn:Hc.
Qed.

Lemma trimEnd_nil (s : jsstring) : trimEnd s = [] <-> is_blank s.
Proof.
  unfold is_blank. induction s as [|c t IH]; cbn [trimEnd].
  - split; [constructor|done].
  - destruct (trimEnd t) as [|x l] eqn:Ht.
    + destruct (is_whitespace c) eqn:Hc.
      * split; [|done]. intros _. constructor; [done|]. by apply IH.
      * split; [done|]. inversion 1; congruence.
    + split; [done|]. inversion 1 as [|? ? _ Hblank]. by apply IH in Hblank.
Qed.

Lemma trim_nil (s : jsstring) : trim s = [] <-> is_blank s.
Proof.
  unfold trim. rewrite trimEnd_nil, <- (trimStart_nil s).
  pose proof (trimStart_blank_free s) as Hfree.
  destruct (trimStart s) as [|c t]; [split; [done|intros; constructor]|].
  split; [|done]. inversion 1; congruence.
Qed.

(** A text that neither starts nor ends with white space. *)
Lemma trimStart_id (s : jsstring) :
  match s with
  | [] => True
  | c :: _ => is_whitespace c = false
  end -> trimStart s = s.
Proof. destruct s as [|c t]; [done|]. cbn. by intros ->. Qed.

Lemma trimEnd_app_last (s : jsstring) (c : N) :
  is_whitespace c = false -> trimEnd (s ++ [c]) = s ++ [c].
Proof.
  intros Hc. induction s as [|x t IH]; cbn [app trimEnd].
  - by rewrite Hc.
  - rewrite IH. by destruct t.
Qed.

Lemma trimEnd_blank_free (s : jsstring) :
  match last (trimEnd s) with
  | None => trimEnd s = []
  | Some c => is_whitespace c = false
  end.
Proof.
  induction s as [|c t IH]; cbn [trimEnd]; [done|].
  destruct (trimEnd t) as [|x l] eqn:Ht.
  - by destruct (is_whitespace c) eqn:Hc.
  - rewrite last_cons. by destruct (last (x :: l)).
Qed.

Lemma trimEnd_head (s : jsstring) :
  match s with
  | [] => True
  | c :: _ => is_whitespace c = false
  end ->
  match trimEnd s with
  | [] => s = []
  | c :: _ => is_whitespace c = false
  end.
Proof.
  destruct s as [|c t]; [done|]. cbn [trimEnd]. intros Hc.
  destruct (trimEnd t); by rewrite ?Hc.
Qed.

Lemma trimEnd_idemp (s : jsstring) : trimEnd (trimEnd s) = trimEnd s.
Proof.
  pose proof (trimEnd_blank_free s) as Hlast.
  destruct (trimEnd s) as [|x l] eqn:Hs using rev_ind; [done|].
  rewrite last_snoc in Hlast. by apply trimEnd_app_last.
Qed.

(** [trim] is idempotent, and what it returns has no white space at either
    end. *)
Lemma trim_idemp (s : jsstring) : trim (trim s) = trim s.
Proof.
  unfold trim.
  rewrite (trimStart_id (trimEnd (trimStart s))); [apply trimEnd_idemp|].
  pose proof (trimEnd_head (trimStart s) (trimStart_blank_free s)) as Hh.
  by destruct (trimEnd (trimStart s)).
Qed.

Lemma trim_ends (s : jsstring) :
  match trim s with
  | [] => True
  | c :: _ => is_whitespace c = false
  end
  /\ match last (trim s) with
     | None => True
     | Some c => is_whitespace c = false
     end.
Proof.
  unfold trim. split.
  - pose proof (trimEnd_head (trimStart s) (trimStart_blank_free s)) as Hh.
    by destruct (trimEnd (trimStart s)).
  - pose proof (trimEnd_blank_free (trimStart s)) as Hl.
    by destruct (last (trimEnd (trimStart s))).
Qed.

Lemma trim_clean (s : jsstring) :
  Forall (fun c => is_whitespace c = false) s -> trim s = s.
Proof.
  intros Hs. unfold trim. rewrite trimStart_id by (by destruct Hs).
  induction Hs as [|c t Hc _ IH]; [done|]. cbn [trimEnd]. rewrite IH.
  destruct t; by rewrite ?Hc.
Qed.

Lemma replace_runs_clean (cls : N -> bool) (rep s : jsstring) :
  Forall (fun c => cls c = false) s -> replace_runs cls rep s = s.
Proof.
  unfold replace_runs. induction 1 as [|c t Hc _ IH]; [done|].
  cbn [replace_runs_from]. by rewrite Hc, IH.
Qed.

Lemma replace_runs_nil (cls : N -> bool) (rep s : jsstring) :
  rep <> [] -> replace_runs cls rep s = [] <-> s = [].
Proof.
  intros Hrep. unfold replace_runs. destruct s as [|c t]; [done|].
  cbn [replace_runs_from]. split; [|done].
  destruct (cls c); [|done]. cbn. destruct rep; [done|]. done.
Qed.

Lemma sanitize_nil (name : jsstring) : sanitize name = [] <-> is_blank name.
Proof.
  unfold sanitize. by rewrite !replace_runs_nil, trim_nil.
Qed.

Lemma sanitize_idemp (name : jsstring) :
  sanitize (sanitize name) = sanitize name.
Proof.
  pose proof (sanitize_clean name) as Hclean.
  apply Forall_and in Hclean as [Hres Hws].
  unfold sanitize at 1. rewrite trim_clean by done.
  rewrite (replace_runs_clean is_reserved) by done.
  by rewrite (replace_runs_clean is_whitespace).
Qed.

(** [trim] takes a run of white space off each end and nothing else. *)
Lemma trimStart_decompose (s : jsstring) :
  exists front, s = front ++ trimStart s
                /\ Forall (fun c => is_whitespace c = true) front.
Proof.
  induction s as [|c t (front & Ht & Hfront)]; cbn [trimStart].
  - by exists [].
  - destruct (is_whitespace c) eqn:Hc.
    + exists (c :: front). split; [cbn; by f_equal|by constructor].
    + by exists [].
Qed.

Lemma trimEnd_decompose (s : jsstring) :
  exists back, s = trimEnd s ++ back
               /\ Forall (fun c => is_whitespace c = true) back.
Proof.
  induction s as [|c t (back & Ht & Hback)]; cbn [trimEnd].
  - by exists [].
  - destruct (trimEnd t) as [|x l] eqn:Hend.
    + destruct (is_whitespace c) eqn:Hc.
      * exists (c :: back). cbn in *. split; [by f_equal|by constructor].
      * exists back. cbn in *. split; [by f_equal|done].
    + exists back. split; [|done]. cbn. by f_equal.
Qed.

Lemma trim_decompose (s : jsstring) :
  exists front back,
    s = front ++ trim s ++ back
    /\ Forall (fun c => is_whitespace c = true) front
    /\ Forall (fun c => is_whitespace c = true) back.
Proof.
  destruct (trimStart_decompose s) as (front & Hs & Hfront).
  destruct (trimEnd_decompose (trimStart s)) as (back & Ht & Hback).
  exists front, back. split; [|done]. unfold trim. by rewrite <- Ht.
Qed.

Section ExportFiles.

Context {D Node : Type} `{!Engine D Node}.

Lemma exportProjectFiles_returns (ed : D) (html css jsValue : jsstring)
    (hs : HeadSettings) :
  getHtml ed = Normal html -> getCss ed = Normal css ->
  exportProjectFiles (Some ed) jsValue hs =
    Normal
      [ {| filename := export_base hs ++ js ".html";
           content := export_document (export_title hs) (headHtml hs)
                        (export_base hs) html;
           mime := js "text/html;charset=utf-8" |};
        {| filename := export_base hs ++ js ".css";
           content := css;
           mime := js "text/css;charset=utf-8" |};
        {| filename := export_base hs ++ js ".js";
           content := jsValue;
           mime := js "text/javascript;charset=utf-8" |} ].
Proof.
  intros Hhtml Hcss. unfold exportProjectFiles, getEditorHtml, getEditorCss.
  rewrite Hhtml, Hcss. cbn.
  by rewrite or_else_nil, htmlDoc_export_document.
Qed.

(** The tree of the specification, written out as one text: every tag,
    attribute name, equals sign and quote of the document, with the five
    holes between them. *)
Lemma export_document_text (title head base html : jsstring) :
  export_document title head base html
  = js "<!doctype html>" ++ [10]
    ++ js "<html lang=" ++ [34] ++ js "en" ++ [34] ++ js ">" ++ [10]
    ++ js "<head>" ++ [10]
    ++ js "  <meta charset=" ++ [34] ++ js "utf-8" ++ [34] ++ js " />" ++ [10]
    ++ js "  <meta name=" ++ [34] ++ js "viewport" ++ [34]
       ++ js " content=" ++ [34] ++ js "width=device-width,initial-scale=1"
       ++ [34] ++ js " />" ++ [10]
    ++ js "  <title>" ++ flat_map escape_unit title ++ js "</title>" ++ [10]
    ++ head ++ [10]
    ++ js "  <link rel=" ++ [34] ++ js "stylesheet" ++ [34]
       ++ js " href=" ++ [34] ++ js "./" ++ base ++ js ".css" ++ [34]
       ++ js " />" ++ [10]
    ++ js "</head>" ++ [10]
    ++ js "<body>" ++ [10]
    ++ html ++ [10]
    ++ js "<script src=" ++ [34] ++ js "./" ++ base ++ js ".js" ++ [34]
       ++ js "></script>" ++ [10]
    ++ js "</body>" ++ [10]
    ++ js "</html>".
Proof.
  unfold export_document, export_head, export_body, indent, newline, attribute.
  cbn [render render_attrs map concat fst snd].
  eval_literals. rewrite <- ?app_assoc. cbn [app].
  reflexivity.
Qed.

(** C1. With an editor attached whose serialisers give [html] and [css],
    [exportProjectFiles] downloads three files.  The [.html] payload is the
    doctype followed by [html] with [lang=en], whose [head] holds, in order,
    the charset meta, the viewport meta, the title as escaped character data,
    the head fragment verbatim and the stylesheet link to [./<base>.css], and
    whose [body] holds [html] verbatim followed by the script with source
    [./<base>.js].  The [.css] payload is [css] and the [.js] payload the
    script text, both verbatim.  Escaping writes every code unit of the title
    as its entity, so that no angle bracket or quote is left in it; the title
    T&T is written T&amp;T.  The payload is also given as one text, with
    every attribute written as its name, an equals sign and its value between
    double quotes; the opening tag of [html] is spelt out in code units, and
    the template of the source is run on the example of the specification. *)
Theorem export_bundle_shape (ed : D) (html css jsValue : jsstring)
    (hs : HeadSettings)
    (Hhtml : getHtml ed = Normal html) (Hcss : getCss ed = Normal css) :
  exportProjectFiles (Some ed) jsValue hs =
    Normal
      [ {| filename := export_base hs ++ js ".html";
           content := export_document (export_title hs) (headHtml hs)
                        (export_base hs) html;
           mime := js "text/html;charset=utf-8" |};
        {| filename := export_base hs ++ js ".css";
           content := css;
           mime := js "text/css;charset=utf-8" |};
        {| filename := export_base hs ++ js ".js";
           content := jsValue;
           mime := js "text/javascript;charset=utf-8" |} ]
  /\ render (Text (export_title hs)) = flat_map escape_unit (export_title hs)
  /\ Forall (fun c => ~ is_markup_delimiter c) (render (Text (export_title hs)))
  /\ render (Text (js "T&T")) = js "T&amp;T"
  /\ escapeHtml (export_title hs) = flat_map escape_unit (export_title hs)
  /\ escapeHtml (js "T&T") = js "T&amp;T"
  /\ (exists css_file js_file,
        exportProjectFiles (Some ed) jsValue hs
        = Normal
            [ {| filename := export_base hs ++ js ".html";
                 content :=
                   js "<!doctype html>" ++ [10]
                   ++ js "<html lang=" ++ [34] ++ js "en" ++ [34] ++ js ">"
                   ++ [10]
                   ++ js "<head>" ++ [10]
                   ++ js "  <meta charset=" ++ [34] ++ js "utf-8" ++ [34]
                      ++ js " />" ++ [10]
                   ++ js "  <meta name=" ++ [34] ++ js "viewport" ++ [34]
                      ++ js " content=" ++ [34]
                      ++ js "width=device-width,initial-scale=1" ++ [34]
                      ++ js " />" ++ [10]
                   ++ js "  <title>"
                      ++ flat_map escape_unit (export_title hs)
                      ++ js "</title>" ++ [10]
                   ++ headHtml hs ++ [10]
                   ++ js "  <link rel=" ++ [34] ++ js "stylesheet" ++ [34]
                      ++ js " href=" ++ [34] ++ js "./" ++ export_base hs
                      ++ js ".css" ++ [34] ++ js " />" ++ [10]
                   ++ js "</head>" ++ [10]
                   ++ js "<body>" ++ [10]
                   ++ html ++ [10]
                   ++ js "<script src=" ++ [34] ++ js "./" ++ export_base hs
                      ++ js ".js" ++ [34] ++ js "></script>" ++ [10]
                   ++ js "</body>" ++ [10]
                   ++ js "</html>";
                 mime := js "text/html;charset=utf-8" |};
              css_file; js_file ]
        /\ content css_file = css /\ content js_file = jsValue)
  /\ js "<html lang=" ++ [34] ++ js "en" ++ [34] ++ js ">"
     = [60; 104; 116; 109; 108; 32; 108; 97; 110; 103; 61; 34; 101; 110; 34; 62]
  /\ htmlDoc (js "T&T") [] (js "site") (js "<p>hi</p>")
     = js "<!doctype html>" ++ [10]
       ++ js "<html lang=" ++ [34] ++ js "en" ++ [34] ++ js ">" ++ [10]
       ++ js "<head>" ++ [10]
       ++ js "  <meta charset=" ++ [34] ++ js "utf-8" ++ [34] ++ js " />"
          ++ [10]
       ++ js "  <meta name=" ++ [34] ++ js "viewport" ++ [34]
          ++ js " content=" ++ [34]
          ++ js "width=device-width,initial-scale=1" ++ [34] ++ js " />"
          ++ [10]
       ++ js "  <title>T&amp;T</title>" ++ [10]
       ++ [10]
       ++ js "  <link rel=" ++ [34] ++ js "stylesheet" ++ [34]
          ++ js " href=" ++ [34] ++ js "./site.css" ++ [34] ++ js " />"
          ++ [10]
       ++ js "</head>" ++ [10]
       ++ js "<body>" ++ [10]
       ++ js "<p>hi</p>" ++ [10]
       ++ js "<script src=" ++ [34] ++ js "./site.js" ++ [34]
          ++ js "></script>" ++ [10]
       ++ js "</body>" ++ [10]
       ++ js "</html>".
Proof.
  split_and!.
  - by apply exportProjectFiles_returns.
  - done.
  - cbn [render]. rewrite <- escapeHtml_units. apply escapeHtml_no_delimiter.
  - reflexivity.
  - apply escapeHtml_units.
  - reflexivity.
  - rewrite (exportProjectFiles_returns ed html css) by done.
    rewrite export_document_text. by eexists _, _.
  - reflexivity.
  - by vm_compute.
Qed.

Lemma export_document_title (title head base html : jsstring) :
  includes (js "<title>" ++ escapeHtml title ++ js "</title>")
    (export_document title head base html).
Proof.
  rewrite <- title_element. unfold export_document.
  apply includes_app_r, includes_app_r.
  apply includes_trans with (render (export_head title head base));
    apply includes_child; cbn; set_solver.
Qed.

(** C10. The title written into the [.html] payload is the escaped, trimmed
    page title; when the page title is the empty string it is the default
    title, which escaping and trimming leave as it is.  Trimmed: the title is
    what is left of the page title when a run of white space is taken off
    each end, and it neither starts nor ends with white space.  Escaped: each
    of its code units is written as its entity.  A page title made of a
    space and a tab, then Tom & Jerry's <b> "show", then a line feed and a
    space, comes out between the title tags as
    Tom &amp; Jerry&#39;s &lt;b&gt; &quot;show&quot;. *)
Theorem export_title_text (ed : D) (html css jsValue : jsstring)
    (hs : HeadSettings)
    (Hhtml : getHtml ed = Normal html) (Hcss : getCss ed = Normal css) :
  let title :=
    match pageTitle hs with
    | [] => js "Vite HTML Editor Export"
    | _ :: _ => trim (pageTitle hs)
    end in
  export_title hs = title
  /\ (exists css_file js_file,
        exportProjectFiles (Some ed) jsValue hs =
          Normal
            [ {| filename := export_base hs ++ js ".html";
                 content := export_document title (headHtml hs)
                              (export_base hs) html;
                 mime := js "text/html;charset=utf-8" |};
              css_file; js_file ])
  /\ includes (js "<title>" ++ escapeHtml title ++ js "</title>")
       (export_document title (headHtml hs) (export_base hs) html)
  /\ escapeHtml (js "Vite HTML Editor Export") = js "Vite HTML Editor Export"
  /\ includes (js "<title>" ++ flat_map escape_unit title ++ js "</title>")
       (export_document title (headHtml hs) (export_base hs) html)
  /\ (exists front back,
        match pageTitle hs with
        | [] => js "Vite HTML Editor Export"
        | _ :: _ => pageTitle hs
        end = front ++ title ++ back
        /\ Forall (fun c => is_whitespace c = true) front
        /\ Forall (fun c => is_whitespace c = true) back)
  /\ match title with
     | [] => True
     | c :: _ => is_whitespace c = false
     end
  /\ match last title with
     | None => True
     | Some c => is_whitespace c = false
     end
  /\ (let spaced :=
        {| pageTitle := [32; 9] ++ js "Tom & Jerry's <b> " ++ [34]
                        ++ js "show" ++ [34] ++ [10; 32];
           headHtml := headHtml hs;
           exportBaseName := exportBaseName hs |} in
      export_title spaced
      = js "Tom & Jerry's <b> " ++ [34] ++ js "show" ++ [34]
      /\ escapeHtml (export_title spaced)
         = js "Tom &amp; Jerry&#39;s &lt;b&gt; &quot;show&quot;"
      /\ exists html_file css_file js_file,
           exportProjectFiles (Some ed) jsValue spaced
           = Normal [html_file; css_file; js_file]
           /\ includes
                (js "<title>Tom &amp; Jerry&#39;s &lt;b&gt; &quot;show&quot;</title>")
                (content html_file)).
Proof.
  intros title.
  assert (export_title hs = title) as Htitle.
  { unfold export_title, title. by destruct (pageTitle hs). }
  split_and!; [done| | |reflexivity| | | | |].
  - rewrite (exportProjectFiles_returns ed html css) by done.
    rewrite Htitle. eauto.
  - apply export_document_title.
  - rewrite <- escapeHtml_units. apply export_document_title.
  - unfold title. destruct (pageTitle hs) as [|c t] eqn:Hpage.
    + exists [], []. by rewrite app_nil_r.
    + rewrite <- Hpage. apply trim_decompose.
  - rewrite <- Htitle. apply trim_ends.
  - rewrite <- Htitle. apply trim_ends.
  - intros spaced.
    assert (export_title spaced
            = js "Tom & Jerry's <b> " ++ [34] ++ js "show" ++ [34]) as Hspaced
      by (by vm_compute).
    split_and!; [done|by vm_compute|].
    eexists _, _, _.
    split; [by apply (exportProjectFiles_returns ed html css)|].
    cbn [content]. rewrite Hspaced.
    exact (export_document_title
             (js "Tom & Jerry's <b> " ++ [34] ++ js "show" ++ [34])
             (headHtml hs) (export_base spaced) html).
Qed.

(** C2, as amended.  The base used for the three file names and the two
    relative links is the sanitised base name: trimmed, every run of reserved
    characters replaced by one dash, then every run of white space replaced by
    one dash.  The default base name stands in for an empty base-name
    setting, before sanitisation.  The result holds no reserved character and
    no white space, and apart from dashes it keeps the other code units of the
    name in their order.  The name a/b:c gives a-b-c and the empty name gives
    the default. *)
Theorem export_base_sanitized (ed : D) (html css jsValue : jsstring)
    (hs : HeadSettings)
    (Hhtml : getHtml ed = Normal html) (Hcss : getCss ed = Normal css) :
  let name :=
    match exportBaseName hs with
    | [] => js "vite-html-editor-export"
    | _ :: _ => exportBaseName hs
    end in
  let base := export_base hs in
  base = sanitize name
  /\ Forall (fun c => is_reserved c = false /\ is_whitespace c = false) base
  /\ filter is_kept base = filter is_kept name
  /\ (exists html_file css_file js_file,
        exportProjectFiles (Some ed) jsValue hs
        = Normal [html_file; css_file; js_file]
        /\ filename html_file = base ++ js ".html"
        /\ filename css_file = base ++ js ".css"
        /\ filename js_file = base ++ js ".js"
        /\ includes (attr "href" (js "./" ++ base ++ js ".css"))
             (content html_file)
        /\ includes (attr "src" (js "./" ++ base ++ js ".js"))
             (content html_file))
  /\ sanitize (js "a/b:c") = js "a-b-c"
  /\ sanitize (js "  a/b:c  ") = js "a-b-c"
  /\ sanitize (js "My Site!.html") = js "My-Site!.html"
  /\ sanitize (js "vite-html-editor-export") = js "vite-html-editor-export".
Proof.
  intros name base.
  assert (base = sanitize name) as Hbase.
  { unfold base, export_base, sanitize, name. by destruct (exportBaseName hs). }
  split_and!; try reflexivity.
  - rewrite Hbase. apply sanitize_clean.
  - rewrite Hbase. apply sanitize_kept.
  - eexists _, _, _.
    split; [by apply (exportProjectFiles_returns ed html css)|].
    cbn [filename content]. fold base. split_and!; try done;
      unfold export_document; apply includes_app_r, includes_app_r.
    + apply includes_trans
        with (render (export_head (export_title hs) (headHtml hs) base));
        [|apply includes_child; cbn; set_solver].
      apply includes_trans
        with (render (Void "link" [attribute "rel" (js "stylesheet");
                                   attribute "href" (js "./" ++ base ++ js ".css")]));
        [|apply includes_child; cbn; set_solver].
      cbn [render render_attrs map concat attribute fst snd].
      do 2 apply includes_app_r. apply includes_app_l, includes_app_r.
      apply includes_app_l, includes_app_r, includes_refl.
    + apply includes_trans
        with (render (export_body base html));
        [|apply includes_child; cbn; set_solver].
      apply includes_trans
        with (render (Element "script"
                        [attribute "src" (js "./" ++ base ++ js ".js")] []));
        [|apply includes_child; cbn; set_solver].
      cbn [render render_attrs map concat attribute fst snd].
      do 2 apply includes_app_r. do 2 apply includes_app_l.
      apply includes_app_r, includes_refl.
Qed.

End ExportFiles.

(** C1 on the example: the three files, the [.html] payload code unit for
    code unit. *)
Lemma export_bundle_shape_witness :
  exportProjectFiles (Some (RefEngine.page None)) (js "console.log(1)")
    example_settings
  = Normal
      [ {| filename := js "site.html";
           content :=
             js "<!doctype html>" ++ [10]
             ++ js "<html lang=" ++ [34] ++ js "en" ++ [34] ++ js ">" ++ [10]
             ++ js "<head>" ++ [10]
             ++ js "  <meta charset=" ++ [34] ++ js "utf-8" ++ [34]
                ++ js " />" ++ [10]
             ++ js "  <meta name=" ++ [34] ++ js "viewport" ++ [34]
                ++ js " content=" ++ [34]
                ++ js "width=device-width,initial-scale=1" ++ [34]
                ++ js " />" ++ [10]
             ++ js "  <title>T&amp;T</title>" ++ [10]
             ++ [10]
             ++ js "  <link rel=" ++ [34] ++ js "stylesheet" ++ [34]
                ++ js " href=" ++ [34] ++ js "./site.css" ++ [34]
                ++ js " />" ++ [10]
             ++ js "</head>" ++ [10]
             ++ js "<body>" ++ [10]
             ++ js "<p>hi</p>" ++ [10]
             ++ js "<script src=" ++ [34] ++ js "./site.js" ++ [34]
                ++ js "></script>" ++ [10]
             ++ js "</body>" ++ [10]
             ++ js "</html>";
           mime := js "text/html;charset=utf-8" |};
        {| filename := js "site.css";
           content :=
             js "* { box-sizing: border-box; } body {margin: 0;}body{margin:0;}";
           mime := js "text/css;charset=utf-8" |};
        {| filename := js "site.js";
           content := js "console.log(1)";
           mime := js "text/javascript;charset=utf-8" |} ].
Proof.
  destruct (export_bundle_shape (RefEngine.page None) (js "<p>hi</p>")
              (js "* { box-sizing: border-box; } body {margin: 0;}body{margin:0;}")
              (js "console.log(1)") example_settings)
    as (Hfiles & _); [reflexivity..|].
  rewrite Hfiles. vm_compute. reflexivity.
Defined.

(** C10 on the example, on an empty title, and on a title with white space
    around it and the five characters in it. *)
Lemma export_title_text_witness :
  export_title example_settings = js "T&T"
  /\ export_title {| pageTitle := []; headHtml := []; exportBaseName := [] |}
     = js "Vite HTML Editor Export"
  /\ exists html_file css_file js_file,
       exportProjectFiles (Some (RefEngine.page None)) []
         {| pageTitle := [32; 9] ++ js "Tom & Jerry's <b> " ++ [34]
                         ++ js "show" ++ [34] ++ [10; 32];
            headHtml := []; exportBaseName := js "site" |}
       = Normal [html_file; css_file; js_file]
       /\ includes
            (js "<title>Tom &amp; Jerry&#39;s &lt;b&gt; &quot;show&quot;</title>")
            (content html_file).
Proof.
  split_and!.
  - apply (export_title_text (RefEngine.page None) (js "<p>hi</p>")
             (RefEngine.protectedCss ++ js "body{margin:0;}") []
             example_settings); reflexivity.
  - apply (export_title_text (RefEngine.page None) (js "<p>hi</p>")
             (RefEngine.protectedCss ++ js "body{margin:0;}") []
             {| pageTitle := []; headHtml := []; exportBaseName := [] |});
      reflexivity.
  - apply (export_title_text (RefEngine.page None) (js "<p>hi</p>")
             (RefEngine.protectedCss ++ js "body{margin:0;}") []
             example_settings); reflexivity.
Defined.

(** C2 as amended, on the example. *)
Lemma export_base_sanitized_witness :
  export_base example_settings = sanitize (js "site").
Proof.
  apply (export_base_sanitized (RefEngine.page None) (js "<p>hi</p>")
           (RefEngine.protectedCss ++ js "body{margin:0;}") []
           example_settings); reflexivity.
Defined.

(** C2, as stated, fails on a base name made of one space: sanitisation
    leaves nothing of it, and the empty base is used, not the default one. *)
Lemma export_base_blank_not_default :
  let hs := {| pageTitle := []; headHtml := []; exportBaseName := js " " |} in
  sanitize (exportBaseName hs) = []
  /\ export_base hs = []
  /\ export_base hs <> js "vite-html-editor-export"
  /\ match exportProjectFiles (Some (RefEngine.page None)) [] hs with
     | Normal files => filename <$> files = [js ".html"; js ".css"; js ".js"]
     | Throw _ => False
     end.
Proof. split_and!; done. Qed.

(** A run of reserved characters gives one dash, not one for each. *)
Example export_base_run :
  sanitize (js "a//b") = js "a-b".
Proof. reflexivity. Qed.

(** The texts the specification looks for in the example's [.html] payload. *)
Example export_example :
  let payload := export_document (js "T&T") [] (js "site") (js "<p>hi</p>") in
  includesb (js "<title>T&amp;T</title>") payload = true
  /\ includesb (js "<link rel=" ++ [34] ++ js "stylesheet" ++ [34]
                 ++ js " href=" ++ [34] ++ js "./site.css" ++ [34] ++ js " />")
       payload = true
  /\ includesb (js "<p>hi</p>") payload = true
  /\ includesb (js "<script src=" ++ [34] ++ js "./site.js" ++ [34] ++ js ">")
       payload = true.
Proof. vm_compute. split_and!; reflexivity. Qed.

(** ** Reverse sync: applying edited text *)

Section Apply.

Context {D Node : Type} `{!Engine D Node}.

(** C3. Without a selected component, applying HTML fails with the message
    that starts with No component selected, and the engine is left as it was,
    whatever the document and the edited text: both serialisations read the
    same before and after.  The same holds when the apply goes through
    [applyEdits] on the HTML tab in advanced mode. *)
Theorem applyHtml_no_selection (ed : D) (html : jsstring) (v : CodeView)
    (Hsel : getSelected ed = None) :
  let '(ed', res) := applyHtmlToSelected ed html in
  ed' = ed
  /\ getHtml ed' = getHtml ed /\ getCss ed' = getCss ed
  /\ ok res = false
  /\ includes (js "No component selected") (message res)
  /\ (tab v = html_tab ->
      applyEdits (Some ed) true (setHtmlValue html v)
      = (Some ed, setStatus (message res) (setHtmlValue html v))).
Proof.
  unfold applyEdits, applyHtmlToSelected. cbn. rewrite Hsel.
  split_and!; try done.
  - by apply includesb_includes.
  - by intros ->.
Qed.

(** The [catch] arm of [applyHtmlToSelected].  When assigning the children
    of the selected component throws, the function returns normally: the
    result is a failure whose message is the text Failed to apply HTML, a
    colon and a space, followed by the message of the thrown error, or by the
    thrown value itself when it has no message.  The function adds nothing to
    what the engine did: it hands back the engine as the failed assignment
    left it.  Whether that is the document from before is the engine's
    matter, which this interface leaves open. *)
Lemma applyHtml_assignment_throws (ed ed' : D) (sel : Node)
    (html : jsstring) (e : thrown)
    (Hsel : getSelected ed = Some sel)
    (Hthrow : components sel html ed = (ed', Throw e)) :
  fst (applyHtmlToSelected ed html) = ed'
  /\ ok (snd (applyHtmlToSelected ed html)) = false
  /\ message (snd (applyHtmlToSelected ed html))
     = js "Failed to apply HTML: "
       ++ match e with
          | ErrorObject message => message
          | ThrownValue text => text
          end.
Proof.
  unfold applyHtmlToSelected. rewrite Hsel, Hthrow. cbn. by destruct e.
Qed.

(** C5. With an editor attached and advanced mode off, [applyEdits] sets the
    status to the request to enable advanced mode and leaves the engine as it
    was, on each of the three tabs: both serialisations read the same before
    and after.  The status of the view that comes out is that request, word
    for word, whatever it was before; the tab and the three texts are the
    ones that went in. *)
Theorem applyEdits_read_only (ed : D) (t : Tab) (h c j s : jsstring) :
  let v := {| tab := t; htmlValue := h; cssValue := c; jsValue := j;
              status := s |} in
  applyEdits (Some ed) false v
  = (Some ed, setStatus (js "Enable Advanced Editing Mode to apply changes.") v)
  /\ (forall ed', fst (applyEdits (Some ed) false v) = Some ed' ->
      getHtml ed' = getHtml ed /\ getCss ed' = getCss ed)
  /\ fst (applyEdits (Some ed) false v) = Some ed
  /\ status (snd (applyEdits (Some ed) false v))
     = js "Enable Advanced Editing Mode to apply changes."
  /\ tab (snd (applyEdits (Some ed) false v)) = t
  /\ htmlValue (snd (applyEdits (Some ed) false v)) = h
  /\ cssValue (snd (applyEdits (Some ed) false v)) = c
  /\ jsValue (snd (applyEdits (Some ed) false v)) = j.
Proof.
  cbn. split_and!; try done. by intros ed' [= <-].
Qed.

Lemma sync_reads (ed : D) (h c : jsstring) (v : CodeView) :
  getHtml ed = Normal h -> getCss ed = Normal c ->
  sync ed v = setCssValue c (setHtmlValue h v).
Proof.
  intros Hh Hc. unfold sync, getEditorHtml, getEditorCss.
  by rewrite Hh, Hc.
Qed.

(** A run of [sync] stores both serialisations, or it sets the status and
    nothing else. *)
Lemma sync_cases (ed : D) (v : CodeView) :
  (exists h c, getHtml ed = Normal h /\ getCss ed = Normal c
               /\ sync ed v = setCssValue c (setHtmlValue h v))
  \/ (exists e, sync ed v = setStatus (js "Sync failed: " ++ cause_text e) v).
Proof.
  unfold sync, getEditorHtml, getEditorCss.
  destruct (getHtml ed) as [h|e]; cbn; [|by right; exists e].
  destruct (getCss ed) as [c|e]; cbn; [|by right; exists e].
  left. by exists h, c.
Qed.

Lemma sync_sync (ed : D) (v : CodeView) : sync ed (sync ed v) = sync ed v.
Proof.
  unfold sync, getEditorHtml, getEditorCss.
  destruct (getHtml ed) as [h|e]; cbn; [|done].
  by destruct (getCss ed) as [c|e].
Qed.

(** C7, as amended.  The apply of the CSS tab in advanced mode, where [T] is
    the edited text, hands [T] itself to the engine's stylesheet replacement:
    the program reads nothing of the former stylesheet and merges nothing.
    The status then says Applied CSS globally and the texts of the view are
    the ones from before.  A forward sync after the apply stores what the two
    serialisers return for the document with the replaced stylesheet: the CSS
    text is the serialisation [c] of that document, from any view, and so it
    is [T] exactly when the serialiser returns [T] itself, and never when the
    serialiser writes something in front of [T]. *)
Theorem applyGlobalCss_round_trip (ed : D) (T h c : jsstring) (v : CodeView)
    (Htab : tab v = css_tab) (Htext : cssValue v = T)
    (Hhtml : getHtml (setStyle T ed) = Normal h)
    (Hcss : getCss (setStyle T ed) = Normal c) :
  let applied := applyEdits (Some ed) true v in
  let synced := sync (setStyle T ed) (snd applied) in
  applyGlobalCss ed T = setStyle T ed
  /\ fst applied = Some (setStyle T ed)
  /\ status (snd applied) = js "Applied CSS globally."
  /\ cssValue (snd applied) = T
  /\ htmlValue (snd applied) = htmlValue v
  /\ cssValue synced = c
  /\ htmlValue synced = h
  /\ status synced = js "Applied CSS globally."
  /\ (cssValue synced = T <-> c = T)
  /\ (forall front, front <> [] -> c = front ++ T -> cssValue synced <> T)
  /\ (forall v', cssValue (sync (applyGlobalCss ed T) v') = c).
Proof.
  intros applied synced.
  assert (applied = (Some (setStyle T ed),
                     setStatus (js "Applied CSS globally.") v)) as Happ.
  { unfold applied, applyEdits, applyGlobalCss. cbn. by rewrite Htab, Htext. }
  assert (forall v', sync (setStyle T ed) v' = setCssValue c (setHtmlValue h v'))
    as Hsync by (intros v'; by apply sync_reads).
  unfold synced. rewrite Hsync, Happ. cbn.
  split_and!; try done.
  - intros front Hfront -> Heq.
    apply (f_equal length) in Heq. rewrite length_app in Heq.
    destruct front; [done|]. cbn in Heq. lia.
  - intros v'. unfold applyGlobalCss. by rewrite Hsync.
Qed.

(** C8. Forward sync is idempotent: against an unchanged engine, any number
    of runs, one or more, leaves the view that the first run gave.  When the
    serialisers give [h] and [c], the HTML and CSS texts of that view are [h]
    and [c]; the tab and the script text are never touched. *)
Theorem sync_idempotent (ed : D) (v : CodeView) (n : nat) :
  Nat.iter (S n) (sync ed) v = sync ed v
  /\ (forall h c, getHtml ed = Normal h -> getCss ed = Normal c ->
      htmlValue (sync ed v) = h /\ cssValue (sync ed v) = c)
  /\ tab (sync ed v) = tab v
  /\ jsValue (sync ed v) = jsValue v.
Proof.
  split_and!.
  - induction n as [|n IH]; [done|].
    change (Nat.iter (S (S n)) (sync ed) v)
      with (sync ed (Nat.iter (S n) (sync ed) v)).
    by rewrite IH, sync_sync.
  - intros h c Hh Hc. by rewrite (sync_reads ed h c).
  - by destruct (sync_cases ed v) as [(h & c & _ & _ & ->)|(e & ->)].
  - by destruct (sync_cases ed v) as [(h & c & _ & _ & ->)|(e & ->)].
Qed.

End Apply.

(** C3 on the reference engine: a page holding a paragraph, nothing
    selected. *)
Lemma applyHtml_no_selection_witness :
  let ed := RefEngine.page None in
  let v := {| tab := html_tab; htmlValue := []; cssValue := []; jsValue := [];
              status := js "Ready." |} in
  getSelected ed = None
  /\ let '(ed', res) := applyHtmlToSelected ed (js "<b>x</b>") in
     ed' = ed
     /\ getHtml ed' = getHtml ed /\ getCss ed' = getCss ed
     /\ ok res = false
     /\ includes (js "No component selected") (message res)
     /\ (tab v = html_tab ->
         applyEdits (Some ed) true (setHtmlValue (js "<b>x</b>") v)
         = (Some ed, setStatus (message res) (setHtmlValue (js "<b>x</b>") v))).
Proof.
  intros ed v. split; [reflexivity|].
  apply (applyHtml_no_selection ed (js "<b>x</b>") v). reflexivity.
Defined.

(** C7, as stated, fails on the reference engine, whose serialiser writes
    the protected rules first, as the configured engine's does.  The rule
    [p{color:red;}] is applied from the CSS tab and comes back whole, so the
    serialiser loses nothing of it; but the CSS text after the forward sync
    is the protected rules followed by the rule, not the rule. *)
Lemma applyGlobalCss_protected_css :
  let T := js "p{color:red;}" in
  let ed := RefEngine.page None in
  let v := {| tab := css_tab; htmlValue := js "<p>hi</p>"; cssValue := T;
              jsValue := []; status := js "Ready." |} in
  let applied := applyEdits (Some ed) true v in
  let synced := sync (applyGlobalCss ed T) (snd applied) in
  fst applied = Some (applyGlobalCss ed T)
  /\ includes T (cssValue synced)
  /\ cssValue synced
     = js "* { box-sizing: border-box; } body {margin: 0;}p{color:red;}"
  /\ cssValue synced <> T.
Proof.
  intros T ed v applied synced. split_and!.
  - reflexivity.
  - apply includesb_includes. by vm_compute.
  - by vm_compute.
  - by vm_compute.
Qed.

(** C7 as amended, on the same input. *)
Lemma applyGlobalCss_round_trip_witness :
  let T := js "p{color:red;}" in
  let ed := RefEngine.page None in
  let v := {| tab := css_tab; htmlValue := js "<p>hi</p>"; cssValue := T;
              jsValue := []; status := js "Ready." |} in
  fst (applyEdits (Some ed) true v) = Some (setStyle T ed)
  /\ cssValue (sync (setStyle T ed) (snd (applyEdits (Some ed) true v)))
     = RefEngine.protectedCss ++ T.
Proof.
  intros T ed v.
  destruct (applyGlobalCss_round_trip ed T (js "<p>hi</p>")
              (RefEngine.protectedCss ++ T) v)
    as (_ & Happlied & _ & _ & _ & Hcss & _); [reflexivity..|].
  split; [exact Happlied|exact Hcss].
Defined.

(** ** Forward sync: coalescing of change events *)

Section Coalescing.

Context {D Node : Type} `{!Engine D Node}.

Implicit Types (w : World D) (acts : list (Action D)) (a : Action D).

Lemma scheduleSync_frame w :
  engine (scheduleSync w) = engine w
  /\ view (scheduleSync w) = view w
  /\ regenerations (scheduleSync w) = regenerations w.
Proof. unfold scheduleSync. by destruct (truthy (rafRef w)). Qed.

Lemma step_frame w a :
  engine (step w a) = document_step (engine w) a
  /\ view (step w a) = view w
  /\ regenerations (step w a) = regenerations w.
Proof.
  destruct a as [f|[]]; cbn [step on_event document_step]; try done;
    apply scheduleSync_frame.
Qed.

Lemma run_frame_untouched acts w :
  engine (run acts w) = fold_left document_step acts (engine w)
  /\ view (run acts w) = view w
  /\ regenerations (run acts w) = regenerations w.
Proof.
  unfold run. revert w. induction acts as [|a acts IH]; intros w; [done|].
  cbn [fold_left]. destruct (IH (step w a)) as (-> & -> & ->).
  destruct (step_frame w a) as (-> & -> & ->). done.
Qed.

Lemma document_step_mutations acts (d : D) :
  fold_left document_step (mutations acts) d = fold_left document_step acts d.
Proof.
  unfold mutations. revert d.
  induction acts as [|[f|e] acts IH]; intros d; [done| |].
  - rewrite filter_cons_True by done. cbn [fold_left]. apply IH.
  - rewrite filter_cons_False by done. cbn [fold_left document_step]. apply IH.
Qed.

Lemma fired_Fire e acts : fired (Fire e :: acts) = S (fired acts).
Proof. unfold fired. by rewrite filter_cons_True. Qed.

Lemma fired_Mutate f acts : fired (Mutate f :: acts) = fired acts.
Proof. unfold fired. by rewrite filter_cons_False. Qed.

Lemma scheduleSync_coherent w : coherent w -> armed (scheduleSync w).
Proof.
  unfold coherent, armed, scheduleSync, truthy.
  destruct (rafRef w) as [h|] eqn:Href.
  - intros [Hh Hq]. rewrite (proj2 (N.eqb_neq h 0)) by done. cbn.
    rewrite Href. eauto.
  - intros Hq. cbn. rewrite Hq. eexists. split_and!; [|done..]. lia.
Qed.

Lemma scheduleSync_armed w : armed w -> scheduleSync w = w.
Proof.
  intros (h & Hh & Href & _). unfold scheduleSync, truthy.
  by rewrite Href, (proj2 (N.eqb_neq h 0)).
Qed.

Lemma armed_coherent w : armed w -> coherent w.
Proof. intros (h & Hh & Href & Hq). unfold coherent. by rewrite Href. Qed.

Lemma step_armed w a : armed w -> armed (step w a).
Proof.
  intros Hw. destruct a as [f|[]]; cbn [step on_event];
    try (by rewrite scheduleSync_armed).
  exact Hw.
Qed.

Lemma step_coherent w a : coherent w -> coherent (step w a).
Proof.
  intros Hw. destruct a as [f|[]]; cbn [step on_event];
    try (by apply armed_coherent, scheduleSync_coherent).
  exact Hw.
Qed.

Lemma run_armed acts w : armed w -> armed (run acts w).
Proof.
  unfold run. revert w. induction acts as [|a acts IH]; intros w Hw; [done|].
  cbn [fold_left]. by apply IH, step_armed.
Qed.

(** One change event or more between two frames leaves exactly one callback
    waiting. *)
Lemma run_arms acts w :
  coherent w -> (1 <= fired acts)%nat -> armed (run acts w).
Proof.
  unfold run. revert w.
  induction acts as [|[f|e] acts IH]; intros w Hw Hn.
  - cbn in Hn. lia.
  - rewrite fired_Mutate in Hn. cbn [fold_left].
    by apply IH; [apply step_coherent|].
  - cbn [fold_left]. apply (run_armed acts).
    destruct e; by apply scheduleSync_coherent.
Qed.

Lemma run_frame_armed w :
  armed w ->
  run_frame w
  = {| engine := engine w; view := sync (engine w) (view w); rafRef := None;
       frame_counter := frame_counter w; frame_callbacks := [];
       regenerations := S (regenerations w) |}.
Proof. intros (h & _ & _ & Hq). unfold run_frame. by rewrite Hq. Qed.

(** Every frame ends with no callback waiting, as the mounted component
    starts. *)
Lemma run_frame_idle w :
  coherent w -> rafRef (run_frame w) = None /\ frame_callbacks (run_frame w) = [].
Proof.
  unfold coherent. destruct (rafRef w) as [h|] eqn:Href.
  - intros [Hh Hq]. by rewrite run_frame_armed by (exists h; eauto).
  - intros Hq. unfold run_frame. rewrite Hq. cbn. by rewrite Href.
Qed.

(** C6. In a frame that starts with no callback waiting, any trace of
    document changes holding [n] change events, [n] at least one, ends with
    exactly one callback waiting under a non-zero handle kept in [rafRef];
    from then on a change event changes nothing.  The frame then runs [sync]
    exactly once, on the document as it is at the frame, and clears [rafRef];
    the texts of the view are then the serialisations of that document, and
    the view is the one that the same document changes followed by a single
    trailing event give. *)
Theorem events_coalesce w acts (n : nat) (e : EngineEvent)
    (Hidle : rafRef w = None /\ frame_callbacks w = [])
    (Hevents : fired acts = n)
    (Hsome : (1 <= n)%nat) :
  let before := run acts w in
  let after := run_frame before in
  armed before
  /\ (forall e', step before (Fire e') = before)
  /\ regenerations before = regenerations w
  /\ regenerations after = S (regenerations w)
  /\ rafRef after = None /\ frame_callbacks after = []
  /\ engine after = engine before
  /\ view after = sync (engine after) (view w)
  /\ (forall h c, getHtml (engine after) = Normal h ->
      getCss (engine after) = Normal c ->
      htmlValue (view after) = h /\ cssValue (view after) = c)
  /\ view after = view (run_frame (run (mutations acts ++ [Fire e]) w)).
Proof.
  intros before after. destruct Hidle as [Href Hq].
  assert (coherent w) as Hw by (unfold coherent; by rewrite Href).
  assert (armed before) as Hbefore by (apply run_arms; [done|lia]).
  assert (armed (run (mutations acts ++ [Fire e]) w)) as Hsingle.
  { apply run_arms; [done|]. unfold fired.
    rewrite filter_app, length_app, filter_cons_True by done. cbn. lia. }
  destruct (run_frame_untouched acts w) as (Heng & Hview & Hregen).
  destruct (run_frame_untouched (mutations acts ++ [Fire e]) w)
    as (Heng1 & Hview1 & _).
  unfold after. rewrite !run_frame_armed by done. fold before. cbn.
  split_and!; try done.
  - intros e'. by destruct e'; apply scheduleSync_armed.
  - unfold before. by rewrite Hregen.
  - unfold before. by rewrite Hview.
  - intros h c Hh Hc. unfold before. by rewrite (sync_reads _ h c).
  - rewrite Heng1, Hview1. unfold before. rewrite Heng, Hview.
    rewrite fold_left_app, document_step_mutations. done.
Qed.

End Coalescing.

(** C6 on the reference engine: three change events around a change of the
    stylesheet, in one frame. *)
Lemma events_coalesce_witness :
  let w :=
    {| engine := RefEngine.page None;
       view := {| tab := html_tab; htmlValue := []; cssValue := [];
                  jsValue := []; status := js "Ready." |};
       rafRef := None; frame_counter := 7; frame_callbacks := [];
       regenerations := 0 |} in
  let acts :=
    [ Fire ev_component_add; Mutate (setStyle (js "p{}"));
      Fire ev_update; Fire ev_style_property_update ] in
  regenerations (run_frame (run acts w)) = 1%nat
  /\ rafRef (run_frame (run acts w)) = None.
Proof.
  intros w acts.
  destruct (events_coalesce w acts 3 ev_update) as (_ & _ & _ & Hone & Href & _).
  - split; reflexivity.
  - reflexivity.
  - lia.
  - split; [exact Hone|exact Href].
Defined.

(** ** Persisted settings *)

Section Startup.

Variable JSON_parse : jsstring -> completion json.

Lemma safeJsonParse_unreadable (raw : option jsstring) (fallback : json) :
  unreadable JSON_parse raw -> safeJsonParse JSON_parse raw fallback = fallback.
Proof.
  intros [->|[->|(text & e & -> & He)]]; [done..|].
  destruct text; [done|]. cbn. by rewrite He.
Qed.

Lemma safeJsonParse_parsed (text : jsstring) (v fallback : json) :
  text <> [] -> JSON_parse text = Normal v ->
  safeJsonParse JSON_parse (Some text) fallback = v.
Proof.
  intros Htext Hv. destruct text; [done|]. cbn. by rewrite Hv.
Qed.

(** C9, as amended.  Startup asks the storage once for each of the four
    keys and ends normally with the four settings.  A missing entry gives
    the default of its setting.  For the head settings and the custom palette
    an empty entry, or one that [JSON.parse] rejects, also gives the default,
    and a value that [JSON.parse] accepts is taken as it is.  The custom
    palette is enabled exactly when its entry is the text 1.  A stored theme
    choice is taken as it is. *)
Theorem startup_settings (ls : gmap (list N) (list N)) :
  let '(p, reads) := startup JSON_parse ls in
  reads = [ LS_THEME_KEY; LS_HEAD_KEY; LS_CUSTOM_PALETTE_ENABLED_KEY;
            LS_CUSTOM_PALETTE_KEY ]
  /\ NoDup reads
  /\ (ls !! LS_THEME_KEY = None -> themeChoice p = js "auto")
  /\ (forall choice, ls !! LS_THEME_KEY = Some choice -> themeChoice p = choice)
  /\ (unreadable JSON_parse (ls !! LS_HEAD_KEY) ->
      headSettings p = default_headSettings)
  /\ (forall text v, ls !! LS_HEAD_KEY = Some text -> text <> [] ->
      JSON_parse text = Normal v -> headSettings p = v)
  /\ (ls !! LS_CUSTOM_PALETTE_ENABLED_KEY = None -> customEnabled p = false)
  /\ (customEnabled p = true <->
      ls !! LS_CUSTOM_PALETTE_ENABLED_KEY = Some (js "1"))
  /\ (unreadable JSON_parse (ls !! LS_CUSTOM_PALETTE_KEY) ->
      customPalette p = default_customPalette)
  /\ (forall text v, ls !! LS_CUSTOM_PALETTE_KEY = Some text -> text <> [] ->
      JSON_parse text = Normal v -> customPalette p = v).
Proof.
  unfold startup, init_themeChoice, init_headSettings, init_customEnabled,
    init_customPalette, bind, ret, getItem.
  cbn [app themeChoice headSettings customEnabled customPalette].
  split_and!.
  - done.
  - apply (bool_decide_unpack _). by vm_compute.
  - by intros ->.
  - by intros choice ->.
  - apply safeJsonParse_unreadable.
  - intros text v ->. apply safeJsonParse_parsed.
  - by intros ->.
  - destruct (ls !! LS_CUSTOM_PALETTE_ENABLED_KEY) as [[|c flag]|].
    + split; [done|]. intros Hflag. by vm_compute in Hflag.
    + rewrite bool_decide_eq_true. split; congruence.
    + split; done.
  - apply safeJsonParse_unreadable.
  - intros text v ->. apply safeJsonParse_parsed.
Qed.

End Startup.

(** C9, as stated, fails on a stored theme that is none of the four choices:
    it is taken as it is, not replaced by the default. *)
Lemma startup_malformed_theme :
  let ls : gmap (list N) (list N) := {[ LS_THEME_KEY := js "purple" ]} in
  ~ is_ThemeChoice (js "purple")
  /\ themeChoice (fst (startup RefJSON.parse ls)) = js "purple"
  /\ themeChoice (fst (startup RefJSON.parse ls)) <> default_themeChoice.
Proof.
  split_and!.
  - by intros [?|[?|[?|?]]].
  - by vm_compute.
  - by vm_compute.
Qed.

(** A stored value of the wrong shape is taken as it is too: [JSON.parse]
    accepts the text 42. *)
Example startup_misshaped_head :
  let ls : gmap (list N) (list N) := {[ LS_HEAD_KEY := js "42" ]} in
  headSettings (fst (startup RefJSON.parse ls)) = JNumber (js "42").
Proof. by vm_compute. Qed.

(** C9 as amended, on a storage whose head settings were cut short and whose
    other entries are missing. *)
Lemma startup_settings_witness :
  let ls : gmap (list N) (list N) := {[ LS_HEAD_KEY := js "{broken" ]} in
  startup RefJSON.parse ls
  = ({| themeChoice := js "auto"; headSettings := default_headSettings;
        customEnabled := false; customPalette := default_customPalette |},
     [ LS_THEME_KEY; LS_HEAD_KEY; LS_CUSTOM_PALETTE_ENABLED_KEY;
       LS_CUSTOM_PALETTE_KEY ]).
Proof.
  intros ls.
  pose proof (startup_settings RefJSON.parse ls) as Hs.
  destruct (startup RefJSON.parse ls) as [[theme head enabled palette] reads].
  cbn [themeChoice headSettings customEnabled customPalette] in Hs.
  destruct Hs as (-> & _ & Htheme & _ & Hhead & _ & Henabled & _ & Hpalette & _).
  rewrite Htheme, Hhead, Henabled, Hpalette; first done.
  - by left.
  - reflexivity.
  - right; right. exists (js "{broken"), RefJSON.SyntaxError.
    split; reflexivity.
  - reflexivity.
Defined.

(** * Further properties *)

(** ** Export: edge cases of the base name and of the title *)

(** X1. The export base name is empty exactly when the base-name setting is a
    non-empty run of white space; the empty setting gives the default name,
    and any name holding something else than white space gives a non-empty
    base. *)
Theorem export_base_empty_iff (hs : HeadSettings) :
  (export_base hs = []
   <-> exportBaseName hs <> [] /\ is_blank (exportBaseName hs))
  /\ (exportBaseName hs = [] -> export_base hs = js "vite-html-editor-export")
  /\ (~ is_blank (exportBaseName hs) -> export_base hs <> []).
Proof.
  assert (export_base hs = []
          <-> exportBaseName hs <> [] /\ is_blank (exportBaseName hs)) as Hiff.
  { unfold export_base.
    fold (sanitize (or_else (exportBaseName hs) default_base)).
    destruct (exportBaseName hs) as [|c t] eqn:Hname; cbn [or_else].
    - split; [by vm_compute|]. by intros [? _].
    - rewrite sanitize_nil. split; [done|]. by intros [_ ?]. }
  split_and!; [done| |].
  - unfold export_base. intros ->. by vm_compute.
  - intros Hblank Hbase. apply Hiff in Hbase as [_ ?]. done.
Qed.

(** X2. A non-empty export base name is stable: used as the base-name
    setting, it gives itself. *)
Theorem export_base_stable (hs : HeadSettings)
    (Hbase : export_base hs <> []) :
  export_base {| pageTitle := pageTitle hs; headHtml := headHtml hs;
                 exportBaseName := export_base hs |}
  = export_base hs.
Proof.
  unfold export_base at 1. cbn [exportBaseName].
  destruct (export_base hs) as [|c t] eqn:Hb; [done|]. cbn [or_else].
  rewrite <- Hb. unfold export_base.
  apply (sanitize_idemp (or_else (exportBaseName hs) default_base)).
Qed.

Lemma export_base_stable_witness :
  export_base {| pageTitle := js "T&T"; headHtml := [];
                 exportBaseName := export_base example_settings |}
  = export_base example_settings.
Proof. apply (export_base_stable example_settings). by vm_compute. Defined.

(** X3. The exported title has no white space at either end, and it is empty
    exactly when the page title is a non-empty run of white space. *)
Theorem export_title_trimmed (hs : HeadSettings) :
  match export_title hs with
  | [] => True
  | c :: _ => is_whitespace c = false
  end
  /\ match last (export_title hs) with
     | None => True
     | Some c => is_whitespace c = false
     end
  /\ (export_title hs = [] <-> pageTitle hs <> [] /\ is_blank (pageTitle hs)).
Proof.
  unfold export_title. split_and!; try apply trim_ends.
  rewrite trim_nil.
  destruct (pageTitle hs) as [|c t]; cbn [or_else].
  - split; [|by intros [? _]]. intros Hb. apply trim_nil in Hb. by vm_compute in Hb.
  - split; [done|]. by intros [_ ?].
Qed.

(** ** [escapeHtml] *)

Lemma escape_unit_cancel (c d : N) (x y : jsstring) :
  escape_unit c ++ x = escape_unit d ++ y -> c = d /\ x = y.
Proof.
  unfold escape_unit.
  repeat match goal with
         | |- context [c =? ?k] => destruct (N.eqb_spec c k)
         end;
    repeat match goal with
           | |- context [d =? ?k] => destruct (N.eqb_spec d k)
           end;
    subst; eval_literals; cbn [app]; intros Heq; by simplify_eq.
Qed.

(** X4. [escapeHtml] is injective: two texts with the same escaped form are
    the same text. *)
Theorem escapeHtml_injective (a b : jsstring)
    (Hsame : escapeHtml a = escapeHtml b) :
  a = b.
Proof.
  rewrite !escapeHtml_units in Hsame. revert b Hsame.
  induction a as [|c a IH]; intros [|d b]; cbn [flat_map].
  - done.
  - intros Heq. exfalso. revert Heq. unfold escape_unit.
    repeat match goal with
           | |- context [d =? ?k] => destruct (N.eqb_spec d k)
           end; eval_literals; done.
  - intros Heq. exfalso. revert Heq. unfold escape_unit.
    repeat match goal with
           | |- context [c =? ?k] => destruct (N.eqb_spec c k)
           end; eval_literals; done.
  - intros Heq. apply escape_unit_cancel in Heq as [-> Heq].
    by rewrite (IH b).
Qed.

Lemma escapeHtml_injective_witness :
  js "a<b" = js "a<b".
Proof. apply (escapeHtml_injective (js "a<b") (js "a<b")). reflexivity. Defined.

Lemma escape_unit_length (c : N) :
  (1 <= length (escape_unit c))%nat
  /\ (length (escape_unit c) = 1%nat <-> ~ is_escaped c)
  /\ (~ is_escaped c -> escape_unit c = [c]).
Proof.
  unfold escape_unit, is_escaped.
  repeat match goal with
         | |- context [c =? ?k] => destruct (N.eqb_spec c k)
         end; subst; eval_literals; cbn [length];
    (split_and!;
     [ lia
     | split; intros H; first [lia | exfalso; apply H; lia]
     | intros H; first [done | exfalso; apply H; lia] ]).
Qed.

(** X5. [escapeHtml] never shortens a text, and it leaves a text as it is
    exactly when the text holds none of the five characters it rewrites. *)
Theorem escapeHtml_identity_iff (s : jsstring) :
  (length s <= length (escapeHtml s))%nat
  /\ (escapeHtml s = s <-> Forall (fun c => ~ is_escaped c) s).
Proof.
  rewrite escapeHtml_units.
  assert (length s <= length (flat_map escape_unit s))%nat as Hlen.
  { induction s as [|c t IH]; cbn [flat_map length]; [done|].
    rewrite length_app. pose proof (escape_unit_length c) as [? _]. lia. }
  split; [done|].
  assert (length (flat_map escape_unit s) = length s
          -> Forall (fun c => ~ is_escaped c) s) as Hfwd.
  { clear Hlen. induction s as [|c t IH]; cbn [flat_map length]; [constructor|].
    rewrite length_app. intros Heq.
    pose proof (escape_unit_length c) as (Hone & Hiff & _).
    assert (length t <= length (flat_map escape_unit t))%nat as Hlen.
    { clear. induction t as [|c t IH]; cbn [flat_map length]; [done|].
      rewrite length_app. pose proof (escape_unit_length c) as [? _]. lia. }
    constructor; [apply Hiff; lia|apply IH; lia]. }
  split.
  - intros Heq. apply Hfwd. by rewrite Heq.
  - clear Hlen Hfwd. induction 1 as [|c t Hc _ IH]; cbn [flat_map]; [done|].
    pose proof (escape_unit_length c) as (_ & _ & Hid).
    by rewrite Hid, IH.
Qed.

(** ** [normalizeColor] *)

(** X6. [normalizeColor] always returns a hash sign followed by six
    hexadecimal digits; it returns its argument exactly when the argument
    is one, and the colour #4fd1ff for every other text, such as a colour
    name, a short hexadecimal colour or the empty text. *)
Theorem normalizeColor_valid (v : jsstring) :
  is_hex_color (normalizeColor v) = true
  /\ length (normalizeColor v) = 7%nat
  /\ (normalizeColor v = v <-> is_hex_color v = true)
  /\ normalizeColor (normalizeColor v) = normalizeColor v
  /\ (is_hex_color v = false -> normalizeColor v = js "#4fd1ff")
  /\ normalizeColor (js "red") = js "#4fd1ff"
  /\ normalizeColor (js "#fff") = js "#4fd1ff"
  /\ normalizeColor [] = js "#4fd1ff"
  /\ normalizeColor (js "#12AbCg") = js "#4fd1ff"
  /\ normalizeColor (js "#12AbCd") = js "#12AbCd".
Proof.
  assert (is_hex_color (normalizeColor v) = true) as Hvalid.
  { unfold normalizeColor. by destruct (is_hex_color v) eqn:Hv. }
  split_and!; [exact Hvalid| | | | |by vm_compute..].
  - destruct (normalizeColor v) as [|? [|? [|? [|? [|? [|? [|? [|? ?]]]]]]]];
      done.
  - split.
    + intros Heq. by rewrite <- Heq.
    + unfold normalizeColor. by intros ->.
  - unfold normalizeColor at 1. by rewrite Hvalid.
  - unfold normalizeColor. by intros ->.
Qed.

(** ** Theme and custom palette *)

Section ThemeFacts.

Variable css_value : jsstring -> option jsstring.

Implicit Types (st : gmap (list N) (list N)) (custom : Palette.CustomPalette).
Implicit Types (fields : list (list N * option (list N))).

Lemma set_if_truthy_lookup (field : option jsstring) (name k : jsstring) st :
  set_if_truthy css_value field name st !! k
  = if decide (k = name)
    then match field with
         | Some ((_ :: _) as value) =>
             match css_value value with
             | Some kept => Some kept
             | None => st !! k
             end
         | _ => st !! k
         end
    else st !! k.
Proof.
  unfold set_if_truthy, setProperty.
  destruct field as [[|c value]|]; try by case_decide.
  destruct (css_value (c :: value)) as [kept|]; [|by case_decide].
  case_decide as Hk; [subst; apply lookup_insert_eq|by apply lookup_insert_ne].
Qed.

Lemma removeProperty_lookup (name k : jsstring) st :
  removeProperty name st !! k = if decide (k = name) then None else st !! k.
Proof.
  unfold removeProperty.
  case_decide as Hk; [subst; apply lookup_delete_eq|by apply lookup_delete_ne].
Qed.

Lemma apply_set_fields custom st :
  applyCustomPaletteVars css_value custom st
  = set_fields css_value (palette_fields custom) st.
Proof. reflexivity. Qed.

Lemma clear_remove_names st :
  clearCustomPaletteVars st = remove_names palette_properties st.
Proof. reflexivity. Qed.

Lemma palette_fields_names custom :
  (palette_fields custom).*1 = palette_properties.
Proof. reflexivity. Qed.

Lemma palette_properties_distinct : NoDup palette_properties.
Proof. apply (bool_decide_unpack _). by vm_compute. Qed.

Lemma set_fields_cons (n : list N) (f : option (list N)) fields st :
  set_fields css_value ((n, f) :: fields) st
  = set_fields css_value fields (set_if_truthy css_value f n st).
Proof. reflexivity. Qed.

Lemma set_fields_other fields st (k : list N) :
  k ∉ fields.*1 -> set_fields css_value fields st !! k = st !! k.
Proof.
  revert st. induction fields as [|[n f] fields IH]; intros st Hk; [done|].
  cbn in Hk. apply not_elem_of_cons in Hk as [Hn Hk].
  rewrite set_fields_cons, IH by done.
  rewrite set_if_truthy_lookup. by case_decide.
Qed.

Lemma set_fields_in fields st (n : list N) (f : option (list N)) :
  NoDup fields.*1 -> (n, f) ∈ fields ->
  set_fields css_value fields st !! n = set_if_truthy css_value f n st !! n.
Proof.
  revert st. induction fields as [|[n' f'] fields IH]; intros st Hnd Hin.
  - by apply elem_of_nil in Hin.
  - cbn in Hnd. apply NoDup_cons in Hnd as [Hfresh Hnd].
    rewrite set_fields_cons.
    apply elem_of_cons in Hin as [[= <- <-]|Hin].
    + by rewrite set_fields_other.
    + rewrite IH by done.
      assert (n <> n') as Hne.
      { intros ->. apply Hfresh. apply list_elem_of_fmap. by exists (n', f). }
      rewrite !(set_if_truthy_lookup f n), (set_if_truthy_lookup f' n').
      by rewrite !(decide_False (P := n = n')) by done.
Qed.

Lemma set_fields_keeps fields st (k : list N) :
  is_Some (st !! k) -> is_Some (set_fields css_value fields st !! k).
Proof.
  revert st. induction fields as [|[n f] fields IH]; intros st Hk; [done|].
  rewrite set_fields_cons. apply IH. rewrite set_if_truthy_lookup.
  case_decide; [|done]. destruct f as [[|c v]|]; try done.
  by destruct (css_value (c :: v)).
Qed.

Lemma remove_names_lookup (names : list (list N)) st (k : list N) :
  remove_names names st !! k = if decide (k ∈ names) then None else st !! k.
Proof.
  unfold remove_names. revert st.
  induction names as [|n names IH]; intros st; cbn [fold_left].
  - case_decide as Hin; [by apply elem_of_nil in Hin|done].
  - rewrite IH, removeProperty_lookup.
    repeat case_decide; try done; exfalso;
      match goal with
      | H : _ ∉ _ :: _ |- _ => apply not_elem_of_cons in H as [? ?]
      | H : _ ∈ _ :: _ |- _ => apply elem_of_cons in H as [?|?]
      end; done.
Qed.

Lemma clear_lookup (k : jsstring) st :
  clearCustomPaletteVars st !! k
  = if decide (k ∈ palette_properties) then None else st !! k.
Proof. rewrite clear_remove_names. apply remove_names_lookup. Qed.

Lemma apply_lookup_other (k : jsstring) custom st :
  k ∉ palette_properties ->
  applyCustomPaletteVars css_value custom st !! k = st !! k.
Proof.
  intros Hk. rewrite apply_set_fields. apply set_fields_other.
  by rewrite palette_fields_names.
Qed.

Lemma apply_lookup_in (name : jsstring) (field : option jsstring) custom st :
  (name, field) ∈ palette_fields custom ->
  applyCustomPaletteVars css_value custom st !! name
  = set_if_truthy css_value field name st !! name.
Proof.
  intros Hin. rewrite apply_set_fields. apply set_fields_in; [|done].
  rewrite palette_fields_names. apply palette_properties_distinct.
Qed.

Lemma apply_lookup_falsy (name : jsstring) (field : option jsstring) custom st :
  (name, field) ∈ palette_fields custom -> is_falsy field ->
  applyCustomPaletteVars css_value custom st !! name = st !! name.
Proof.
  intros Hin Hfalsy. rewrite (apply_lookup_in name field) by done.
  by destruct Hfalsy as [->| ->].
Qed.

Lemma apply_keeps (k : jsstring) custom st :
  is_Some (st !! k) ->
  is_Some (applyCustomPaletteVars css_value custom st !! k).
Proof. rewrite apply_set_fields. apply set_fields_keeps. Qed.

(** X7. Clearing the custom palette undoes what applying one did: whatever the
    palette, clearing after applying leaves the style that clearing alone
    leaves, with none of the seven custom properties set and every other
    property as it was. *)
Theorem clear_after_apply custom st :
  clearCustomPaletteVars (applyCustomPaletteVars css_value custom st)
  = clearCustomPaletteVars st
  /\ (forall k, k ∈ palette_properties -> clearCustomPaletteVars st !! k = None)
  /\ (forall k, k ∉ palette_properties ->
      clearCustomPaletteVars st !! k = st !! k
      /\ applyCustomPaletteVars css_value custom st !! k = st !! k).
Proof.
  split_and!.
  - apply map_eq. intros k. rewrite !clear_lookup.
    case_decide; [done|]. by apply apply_lookup_other.
  - intros k Hk. rewrite clear_lookup. by case_decide.
  - intros k Hk. rewrite clear_lookup, apply_lookup_other by done.
    by case_decide.
Qed.

(** X8. Applying a palette never removes a property: every property that was
    set stays set, and the property of a missing or empty colour keeps its
    former value (so a colour emptied while the palette stays enabled is not
    reset). *)
Theorem apply_never_removes custom st :
  (forall k, is_Some (st !! k) ->
             is_Some (applyCustomPaletteVars css_value custom st !! k))
  /\ (forall name field,
        (name, field) ∈ palette_fields custom -> is_falsy field ->
        applyCustomPaletteVars css_value custom st !! name = st !! name).
Proof.
  split; [intros k; apply apply_keeps|].
  intros name field. apply apply_lookup_falsy.
Qed.




End ThemeFacts.

(** ** Persisted settings across a reload *)

Lemma storage_keys_distinct :
  LS_THEME_KEY <> LS_HEAD_KEY
  /\ LS_THEME_KEY <> LS_CUSTOM_PALETTE_ENABLED_KEY
  /\ LS_THEME_KEY <> LS_CUSTOM_PALETTE_KEY
  /\ LS_HEAD_KEY <> LS_CUSTOM_PALETTE_ENABLED_KEY
  /\ LS_HEAD_KEY <> LS_CUSTOM_PALETTE_KEY
  /\ LS_CUSTOM_PALETTE_ENABLED_KEY <> LS_CUSTOM_PALETTE_KEY.
Proof. split_and!; intros Heq; by vm_compute in Heq. Qed.

(** X10. The settings survive a reload: once the four effects have written
    them, startup reads back the same theme choice and the same
    custom-palette flag, and the same head settings and palette whenever
    [JSON.parse] gives back what [JSON.stringify] wrote; the entries under
    other keys are not touched. *)
Theorem persist_startup (JSON_parse : jsstring -> completion json)
    (JSON_stringify : json -> jsstring) (p : Persisted)
    (ls : gmap (list N) (list N))
    (Hhead : JSON_stringify (headSettings p) <> []
             /\ JSON_parse (JSON_stringify (headSettings p))
                = Normal (headSettings p))
    (Hpalette : JSON_stringify (customPalette p) <> []
                /\ JSON_parse (JSON_stringify (customPalette p))
                   = Normal (customPalette p)) :
  fst (startup JSON_parse (persist JSON_stringify p ls)) = p
  /\ (forall key,
        key ∉ [ LS_THEME_KEY; LS_HEAD_KEY; LS_CUSTOM_PALETTE_ENABLED_KEY;
                LS_CUSTOM_PALETTE_KEY ] ->
        persist JSON_stringify p ls !! key = ls !! key).
Proof.
  destruct storage_keys_distinct as (H12 & H13 & H14 & H23 & H24 & H34).
  destruct Hhead as [Hhead_text Hhead], Hpalette as [Hpal_text Hpal].
  destruct p as [theme head enabled palette].
  cbn [themeChoice headSettings customEnabled customPalette] in *.
  split.
  - unfold startup, init_themeChoice, init_headSettings, init_customEnabled,
      init_customPalette, bind, ret, getItem, persist.
    cbn [fst themeChoice headSettings customEnabled customPalette].
    f_equal.
    + rewrite lookup_insert_ne, lookup_insert_ne, lookup_insert_ne by done.
      by rewrite lookup_insert_eq.
    + rewrite lookup_insert_ne, lookup_insert_ne by done.
      rewrite lookup_insert_eq. by apply safeJsonParse_parsed.
    + rewrite lookup_insert_ne by done.
      rewrite lookup_insert_eq. by destruct enabled.
    + rewrite lookup_insert_eq. by apply safeJsonParse_parsed.
  - intros key Hkey. unfold persist.
    cbn [themeChoice headSettings customEnabled customPalette].
    repeat (apply not_elem_of_cons in Hkey as [? Hkey]).
    by rewrite !lookup_insert_ne by done.
Qed.

(** X10 on the default settings, with the reference parser and the reference
    serialiser. *)
Lemma persist_startup_witness :
  let p := {| themeChoice := js "dark"; headSettings := default_headSettings;
              customEnabled := true; customPalette := default_customPalette |} in
  fst (startup RefJSON.parse (persist RefStringify.stringify p ∅)) = p.
Proof.
  intros p.
  apply (persist_startup RefJSON.parse RefStringify.stringify p ∅);
    split; by vm_compute.
Defined.

(** ** Applying edits and syncing: what is left alone *)

Section ApplyFacts.

Context {D Node : Type} `{!Engine D Node}.

(** X11. [applyEdits] never changes the texts or the tab of the view, only
    its status; without an editor it changes nothing at all; and on the JS
    tab, as with advanced mode off, the engine is left as it was. *)
Theorem applyEdits_keeps_texts (editor : option D) (advancedMode : bool)
    (v : CodeView) :
  let '(editor', v') := applyEdits editor advancedMode v in
  tab v' = tab v
  /\ htmlValue v' = htmlValue v
  /\ cssValue v' = cssValue v
  /\ jsValue v' = jsValue v
  /\ (editor = None -> editor' = None /\ v' = v)
  /\ (tab v = js_tab \/ advancedMode = false -> editor' = editor)
  /\ (is_Some editor' <-> is_Some editor).
Proof.
  unfold applyEdits.
  destruct editor as [ed|]; [|by split_and!].
  destruct advancedMode; cbn [negb];
    [destruct (tab v) eqn:Htab;
     [destruct (applyHtmlToSelected ed (htmlValue v)) as [ed' res]| |]|];
    cbn; split_and!;
    first [ done | intros [?|?]; congruence | split; by eauto ].
Qed.

(** X12. [applyHtmlToSelected] reports success exactly when a component is
    selected and the engine's assignment of its children returned; the engine
    is then as that assignment left it and the message says so. *)
Theorem applyHtml_ok_iff (ed : D) (html : jsstring) :
  let '(ed', res) := applyHtmlToSelected ed html in
  (ok res = true
   <-> exists sel, getSelected ed = Some sel
                   /\ components sel html ed = (ed', Normal tt))
  /\ (ok res = true ->
      message res = js "Applied HTML to the selected component.").
Proof.
  unfold applyHtmlToSelected.
  destruct (getSelected ed) as [sel|] eqn:Hsel.
  - destruct (components sel html ed) as [ed' [[]|e]] eqn:Hc; cbn.
    + split; [|done]. split; [|done]. intros _. by exists sel.
    + split; [|done]. split; [done|]. intros (sel' & [= <-] & Heq). congruence.
  - cbn. split; [|done]. split; [done|]. by intros (sel & ? & _).
Qed.

(** X13. [sync] stores both texts or none: when either serialiser throws,
    also the CSS one after the HTML one returned, the view keeps its texts
    and only its status changes, to the report of the cause; the texts change
    only when both serialisers returned, and then the status is kept.  The
    report is the text Sync failed, a colon and a space, followed by the
    message of the thrown error, or by the thrown value itself when it has
    no message. *)
Theorem sync_all_or_nothing (ed : D) (v : CodeView) :
  (forall e, getHtml ed = Throw e ->
             sync ed v = setStatus (js "Sync failed: " ++ cause_text e) v)
  /\ (forall h e, getHtml ed = Normal h -> getCss ed = Throw e ->
                  sync ed v = setStatus (js "Sync failed: " ++ cause_text e) v)
  /\ (htmlValue (sync ed v) <> htmlValue v \/ cssValue (sync ed v) <> cssValue v ->
      exists h c, getHtml ed = Normal h /\ getCss ed = Normal c
                  /\ status (sync ed v) = status v)
  /\ (forall e,
        getHtml ed = Throw e
        \/ (exists h, getHtml ed = Normal h /\ getCss ed = Throw e) ->
        status (sync ed v)
        = js "Sync failed: "
          ++ match e with
             | ErrorObject message => message
             | ThrownValue text => text
             end
        /\ htmlValue (sync ed v) = htmlValue v
        /\ cssValue (sync ed v) = cssValue v
        /\ jsValue (sync ed v) = jsValue v
        /\ tab (sync ed v) = tab v)
  /\ (forall h c, getHtml ed = Normal h -> getCss ed = Normal c ->
        htmlValue (sync ed v) = h /\ cssValue (sync ed v) = c
        /\ status (sync ed v) = status v).
Proof.
  unfold sync, getEditorHtml, getEditorCss. split_and!.
  - by intros e ->.
  - by intros h e -> ->.
  - destruct (getHtml ed) as [h|e]; cbn; [|by intros [?|?]].
    destruct (getCss ed) as [c|e]; cbn; [|by intros [?|?]].
    intros _. by exists h, c.
  - intros e [->|(h & -> & ->)]; by destruct e.
  - by intros h c -> ->.
Qed.

(** *** Frames and events in any order *)

Implicit Types (w : World D) (m : Mounted D) (ts : list (Tick D)).

Lemma run_frame_coherent w :
  coherent w ->
  coherent (run_frame w)
  /\ (regenerations w <= regenerations (run_frame w) <= S (regenerations w))%nat
  /\ frame_counter (run_frame w) = frame_counter w.
Proof.
  intros Hw. destruct (run_frame_idle w Hw) as [Href Hq].
  split; [unfold coherent; by rewrite Href|].
  unfold coherent in Hw. destruct (rafRef w) as [h|] eqn:Hraf.
  - destruct Hw as [Hh Hqw]. rewrite run_frame_armed by (exists h; eauto).
    cbn. split; [lia|done].
  - unfold run_frame. rewrite Hw. cbn. split; [lia|done].
Qed.

Lemma scheduleSync_counter w :
  frame_counter w <= frame_counter (scheduleSync w).
Proof.
  unfold scheduleSync. destruct (truthy (rafRef w)); cbn; lia.
Qed.

(** The runs of [sync] and the timers still to fire, after one more tick:
    a timer that fires turns into a run, a frame adds at most one run, and
    nothing else adds any. *)
Lemma tick_invariant m (t : Tick D) :
  coherent (world m) ->
  coherent (world (tick m t))
  /\ (regenerations (world m) + timers m
      <= regenerations (world (tick m t)) + timers (tick m t)
      <= regenerations (world m) + timers m + (if is_frame t then 1 else 0))%nat
  /\ (timers (tick m t) <= timers m)%nat
  /\ frame_counter (world m) <= frame_counter (world (tick m t)).
Proof.
  intros Hw. destruct t as [a| |]; cbn [tick is_frame world timers].
  - split; [by apply step_coherent|].
    destruct (step_frame (world m) a) as (_ & _ & ->). split_and!; [lia..|].
    destruct a as [f|[]]; cbn [step on_event]; try apply scheduleSync_counter.
    cbn. lia.
  - destruct (run_frame_coherent (world m) Hw) as (? & ? & ->).
    split_and!; [done|lia..].
  - destruct (timers m) as [|rest] eqn:Hleft; cbn [world timers].
    + rewrite Hleft. split_and!; [done|lia..].
    + split_and!; [done|cbn; lia..].
Qed.

(** X14. Mounting runs [sync] once and leaves two timers that will each run
    it once more.  From then on, whatever the order of document changes,
    change events, timers and frames, at most one callback is ever waiting,
    and [sync] has run once at the mount, once for each timer that fired, and
    at most once for each frame: never more than three times plus the number
    of frames. *)
Theorem at_most_one_sync_per_frame w ts
    (Hstart : coherent w) :
  let m := play ts (mount w) in
  coherent (world m)
  /\ (length (frame_callbacks (world m)) <= 1)%nat
  /\ regenerations (world (mount w)) = S (regenerations w)
  /\ (timers m <= 2)%nat
  /\ (regenerations w + 3
      <= regenerations (world m) + timers m
      <= regenerations w + 3 + frames ts)%nat
  /\ (regenerations (world m) <= regenerations w + 3 + frames ts)%nat
  /\ frame_counter w <= frame_counter (world m).
Proof.
  intros m.
  assert (forall m0, coherent (world m0) ->
            coherent (world (play ts m0))
            /\ (regenerations (world m0) + timers m0
                <= regenerations (world (play ts m0)) + timers (play ts m0)
                <= regenerations (world m0) + timers m0 + frames ts)%nat
            /\ (timers (play ts m0) <= timers m0)%nat
            /\ frame_counter (world m0) <= frame_counter (world (play ts m0)))
    as Hplay.
  { unfold play, frames.
    induction ts as [|t ts IH]; intros m0 Hw; cbn [fold_left].
    - split_and!; [done|cbn; lia..].
    - destruct (tick_invariant m0 t Hw) as (Hw' & Hr & Ht & Hf).
      destruct (IH _ Hw') as (? & ? & ? & ?). split_and!; [done| | |lia|lia].
      + lia.
      + rewrite filter_cons. destruct t as [a| |]; cbn [is_frame] in *.
        * rewrite decide_False by done. lia.
        * rewrite decide_True by done. cbn [length]. lia.
        * rewrite decide_False by done. lia. }
  destruct (Hplay (mount w)) as (Hc & Hr & Ht & Hf); [done|].
  fold m in Hc, Hr, Ht, Hf. cbn [mount world timers sync_now regenerations
                                  frame_counter] in Hr, Ht, Hf.
  split_and!; try done; try lia.
  unfold coherent in Hc. destruct (rafRef (world m)).
  - destruct Hc as [_ ->]. cbn. lia.
  - rewrite Hc. cbn. lia.
Qed.

End ApplyFacts.

(** X14 on the reference engine: the mount, then events, frames and the two
    timers.  [sync] runs at the mount, at the first and the third frame and
    for each timer; the second frame finds nothing waiting. *)
Lemma at_most_one_sync_per_frame_witness :
  let w :=
    {| engine := RefEngine.page None;
       view := {| tab := html_tab; htmlValue := []; cssValue := [];
                  jsValue := []; status := js "Ready." |};
       rafRef := None; frame_counter := 0; frame_callbacks := [];
       regenerations := 0 |} in
  let ts := [ Act (Fire ev_load); Timer; Act (Fire ev_update); Frame; Frame;
              Act (Fire ev_component_add); Timer; Frame; Timer ] in
  (regenerations (world (play ts (mount w))) <= 0 + 3 + 3)%nat
  /\ regenerations (world (play ts (mount w))) = 5%nat.
Proof.
  intros w ts. split; [|reflexivity].
  apply (at_most_one_sync_per_frame w ts). reflexivity.
Defined.

(** ** Formatting *)

(** X15. Formatting touches the text of the active tab only.  When the
    formatter throws, no text changes and the status reports the cause: it is
    the text Format failed, a colon and a space, followed by the message of
    the thrown error, or by the thrown value itself when it has no message.
    When the formatter returns, the active text becomes its output without
    surrounding white space, the two other texts and the tab are kept, and
    the status is the text Formatted with a full stop. *)
Theorem formatCurrent_active_tab
    (prettier_format : Tab -> jsstring -> completion jsstring) (v : CodeView) :
  match prettier_format (tab v) (value v) with
  | Throw e =>
      formatCurrent prettier_format v
      = setStatus (js "Format failed: " ++ cause_text e) v
      /\ status (formatCurrent prettier_format v)
         = js "Format failed: "
           ++ match e with
              | ErrorObject message => message
              | ThrownValue text => text
              end
      /\ tab (formatCurrent prettier_format v) = tab v
      /\ htmlValue (formatCurrent prettier_format v) = htmlValue v
      /\ cssValue (formatCurrent prettier_format v) = cssValue v
      /\ jsValue (formatCurrent prettier_format v) = jsValue v
  | Normal out =>
      formatCurrent prettier_format v
      = setStatus (js "Formatted.") (setValue (trim out) v)
      /\ status (formatCurrent prettier_format v) = js "Formatted."
      /\ value (formatCurrent prettier_format v) = trim out
      /\ trim (value (formatCurrent prettier_format v))
         = value (formatCurrent prettier_format v)
      /\ tab (formatCurrent prettier_format v) = tab v
      /\ (tab v <> html_tab ->
          htmlValue (formatCurrent prettier_format v) = htmlValue v)
      /\ (tab v <> css_tab ->
          cssValue (formatCurrent prettier_format v) = cssValue v)
      /\ (tab v <> js_tab ->
          jsValue (formatCurrent prettier_format v) = jsValue v)
  end.
Proof.
  unfold formatCurrent, value, setValue.
  destruct (tab v) eqn:Htab;
    match goal with
    | |- context [prettier_format ?t ?x] =>
        destruct (prettier_format t x) as [out|e]
    end; cbn; rewrite ?Htab; try done;
    split_and!; try done;
    first [ exact (trim_idemp out) | by destruct e ].
Qed.

(** ** The code drawer: resizing by dragging *)

Module DrawerFacts.

Import Drawer.

Section DrawerFacts.

Context {Pct : Type}.

Implicit Types (s : State Pct) (p : Pct) (e : Event Pct).

Lemma onMove_armed s p :
  coherent s -> isDragging s = true ->
  let s' := onMove p s in
  coherent s' /\ rafRef s' <> None /\ pendingPctRef s' = p
  /\ heightPct s' = heightPct s /\ updates s' = updates s
  /\ isDragging s' = true.
Proof.
  unfold coherent, onMove, truthy. intros Hc Hd.
  destruct (rafRef s) as [h|] eqn:Href.
  - destruct Hc as (Hh & Hq & _). rewrite (proj2 (N.eqb_neq h 0)) by done.
    cbn. by split_and!.
  - cbn. rewrite Hc. split_and!; try done. lia.
Qed.

Lemma moves_keep s (moves : list Pct) :
  coherent s -> isDragging s = true ->
  let s' := fold_left handle (MouseMove <$> moves) s in
  coherent s' /\ isDragging s' = true
  /\ heightPct s' = heightPct s /\ updates s' = updates s.
Proof.
  revert s. induction moves as [|p moves IH]; intros s Hc Hd; [done|].
  cbn [fmap list_fmap fold_left handle]. rewrite Hd.
  destruct (onMove_armed s p Hc Hd) as (Hc' & _ & _ & Hh & Hu & Hd').
  destruct (IH _ Hc' Hd') as (? & ? & -> & ->). by split_and!.
Qed.

Lemma run_frame_waiting s (h : N) :
  frame_callbacks s = [h] -> run_frame s = frame_callback
    {| heightPct := heightPct s; isDragging := isDragging s;
       rafRef := rafRef s; pendingPctRef := pendingPctRef s;
       cursor := cursor s; userSelect := userSelect s;
       frame_counter := frame_counter s;
       frame_callbacks := []; updates := updates s |}.
Proof. intros Hq. unfold run_frame. by rewrite Hq. Qed.

Lemma run_frame_empty s :
  frame_callbacks s = [] -> run_frame s = s.
Proof. intros Hq. unfold run_frame. rewrite Hq. destruct s. by cbn in *; subst. Qed.

(** X16. During a drag, the moves of one frame lead to exactly one change of
    the height, and the height becomes the one computed by the last move. *)
Theorem drag_last_move_wins s (moves : list Pct) (last_move : Pct)
    (Hdrag : isDragging s = true)
    (Hidle : rafRef s = None /\ frame_callbacks s = []) :
  let s' :=
    run_frame (fold_left handle (MouseMove <$> (moves ++ [last_move])) s) in
  heightPct s' = last_move
  /\ updates s' = S (updates s)
  /\ rafRef s' = None /\ frame_callbacks s' = []
  /\ isDragging s' = true.
Proof.
  destruct Hidle as [Href Hq].
  assert (coherent s) as Hc by (unfold coherent; by rewrite Href).
  rewrite fmap_app, fold_left_app. cbn [fmap list_fmap fold_left handle].
  destruct (moves_keep s moves Hc Hdrag) as (Hc1 & Hd1 & Hh1 & Hu1).
  rewrite Hd1.
  destruct (onMove_armed _ last_move Hc1 Hd1)
    as (Hc2 & Hne & Hp & _ & Hu2 & Hd2).
  unfold coherent in Hc2.
  destruct (rafRef (onMove last_move _)) as [h|] eqn:Href2; [|done].
  destruct Hc2 as (_ & Hq2 & _).
  cbn zeta. rewrite (run_frame_waiting _ h Hq2). cbn.
  rewrite Hp, Hu2, Hu1. by split_and!.
Qed.

Lemma cancel_single (h : N) : cancelAnimationFrame h [h] = [].
Proof.
  unfold cancelAnimationFrame. by rewrite filter_cons_False, filter_nil by auto.
Qed.

Lemma stopDrag_idle s :
  coherent s ->
  rafRef (stopDrag s) = None /\ frame_callbacks (stopDrag s) = [].
Proof.
  intros Hc. unfold stopDrag, coherent, truthy in *.
  cbn [rafRef frame_callbacks].
  destruct (rafRef s) as [h|].
  - destruct Hc as (Hh & -> & _). rewrite (proj2 (N.eqb_neq h 0)) by done.
    cbn [negb]. by rewrite cancel_single.
  - done.
Qed.

(** X17. Ending a drag cancels the waiting callback: after [stopDrag] the
    drawer is not dragging, nothing waits, the cursor and the selection style
    of the body are reset, the height is the one before, and the next frame
    changes nothing, so a height parked by a move and not yet shown is
    dropped.  Releasing the button, leaving the window, losing the focus,
    the Escape key and the close button all end the drag this way; another
    key does nothing. *)
Theorem stopDrag_cancels s (Hc : coherent s) :
  let s' := stopDrag s in
  isDragging s' = false
  /\ rafRef s' = None /\ frame_callbacks s' = []
  /\ cursor s' = [] /\ userSelect s' = []
  /\ heightPct s' = heightPct s
  /\ run_frame s' = s'
  /\ (isDragging s = true ->
      handle s MouseUp = s' /\ handle s MouseLeave = s' /\ handle s Blur = s'
      /\ handle s (KeyDown (js "Escape")) = s' /\ handle s CloseButton = s'
      /\ forall key, key <> js "Escape" -> handle s (KeyDown key) = s).
Proof.
  intros s'. destruct (stopDrag_idle s Hc) as [Href Hq].
  split_and!; try done.
  - by apply run_frame_empty.
  - intros Hd. cbn [handle]. rewrite Hd. split_and!; try done.
    intros key Hkey. by rewrite bool_decide_eq_false_2.
Qed.

Lemma tick_coherent s (t : Tick Pct) :
  coherent s ->
  coherent (tick s t)
  /\ (heightPct (tick s t) <> heightPct s ->
      t = Frame /\ isDragging s = true).
Proof.
  intros Hc. destruct t as [e|]; cbn [tick].
  - assert (coherent (stopDrag s) /\ heightPct (stopDrag s) = heightPct s)
      as [Hstop Hsame].
    { destruct (stopDrag_idle s Hc) as [Href Hq].
      split; [|done]. unfold coherent. by rewrite Href. }
    destruct e as [|p| | | |key|]; cbn [handle].
    + split; [|done]. unfold coherent in *. cbn.
      destruct (rafRef s); [|done]. by destruct Hc as (? & ? & _).
    + destruct (isDragging s) eqn:Hd; [|done].
      destruct (onMove_armed s p Hc Hd) as (? & _ & _ & -> & _). done.
    + destruct (isDragging s); [by rewrite Hsame|done].
    + destruct (isDragging s); [by rewrite Hsame|done].
    + destruct (isDragging s); [by rewrite Hsame|done].
    + destruct (isDragging s); [|done].
      case_bool_decide; [by rewrite Hsame|done].
    + by rewrite Hsame.
  - unfold coherent in Hc. destruct (rafRef s) as [h|] eqn:Href.
    + destruct Hc as (Hh & Hq & Hd). rewrite (run_frame_waiting s h Hq).
      cbn. split; [done|]. by intros _.
    + rewrite (run_frame_empty s Hc). split; [|done].
      unfold coherent. by rewrite Href.
Qed.

Lemma play_coherent s (ts : list (Tick Pct)) :
  coherent s -> coherent (play ts s).
Proof.
  unfold play. revert s.
  induction ts as [|t ts IH]; intros s Hs; [done|].
  cbn [fold_left]. apply IH. by apply tick_coherent.
Qed.

(** X18. Whatever the order of events and frames, at most one callback
    waits, and only during a drag; the height of the drawer changes only at a
    frame during a drag. *)
Theorem drawer_invariant s (ts : list (Tick Pct)) (t : Tick Pct)
    (Hstart : coherent s) :
  let now := play ts s in
  coherent now
  /\ (length (frame_callbacks now) <= 1)%nat
  /\ (isDragging now = false -> rafRef now = None /\ frame_callbacks now = [])
  /\ (heightPct (tick now t) <> heightPct now ->
      t = Frame /\ isDragging now = true).
Proof.
  intros now.
  assert (coherent now) as Hc by (by apply play_coherent).
  split_and!; [done| | |by apply tick_coherent].
  - unfold coherent in Hc. destruct (rafRef now).
    + destruct Hc as (_ & -> & _). cbn. lia.
    + rewrite Hc. cbn. lia.
  - intros Hd. unfold coherent in Hc. destruct (rafRef now); [|done].
    destruct Hc as (_ & _ & ?). congruence.
Qed.

End DrawerFacts.

Lemma drag_last_move_wins_witness :
  let s := {| heightPct := 42%nat; isDragging := true; rafRef := None;
              pendingPctRef := 42%nat; cursor := js "row-resize";
              userSelect := js "none"; frame_counter := 3;
              frame_callbacks := []; updates := 0 |} in
  heightPct
    (run_frame (fold_left handle (MouseMove <$> ([50; 61] ++ [70]))%nat s))
  = 70%nat.
Proof.
  intros s. apply (drag_last_move_wins s [50; 61]%nat 70%nat); by split.
Defined.

Lemma stopDrag_cancels_witness :
  let s := {| heightPct := 42%nat; isDragging := true; rafRef := Some 4;
              pendingPctRef := 55%nat; cursor := js "row-resize";
              userSelect := js "none"; frame_counter := 4;
              frame_callbacks := [4]; updates := 0 |} in
  heightPct (run_frame (handle s MouseUp)) = 42%nat.
Proof.
  intros s.
  destruct (stopDrag_cancels s) as (_ & _ & _ & _ & _ & Hh & Hrun & Hev).
  - by split_and!.
  - destruct (Hev eq_refl) as (-> & _). by rewrite Hrun, Hh.
Defined.

Lemma drawer_invariant_witness :
  let s := {| heightPct := 42%nat; isDragging := false; rafRef := None;
              pendingPctRef := 42%nat; cursor := []; userSelect := [];
              frame_counter := 0; frame_callbacks := []; updates := 0 |} in
  let ts := [ Ev MouseDown; Ev (MouseMove 50%nat); Ev (MouseMove 60%nat);
              Ev (KeyDown (js "Escape")); Frame ] in
  (length (frame_callbacks (play ts s)) <= 1)%nat.
Proof.
  intros s ts. apply (drawer_invariant s ts Frame). reflexivity.
Defined.

End DrawerFacts.

(** ** Saving and loading a template *)

Module TemplateFacts.

Import Template.

Section TemplateFacts.

Context {D : Type} `{!Host D}.

Implicit Types (s : Session D) (a : AppState) (x : option json).

Lemma when_string_run x set s :
  when_string x set s = (set_app (string_set x set (app s)) s, Normal tt).
Proof. destruct s. by destruct x as [[]|]. Qed.

Lemma when_boolean_run x set s :
  when_boolean x set s = (set_app (boolean_set x set (app s)) s, Normal tt).
Proof. destruct s. by destruct x as [[]|]. Qed.

Lemma when_truthy_run x set s :
  when_truthy x set s
  = (set_app (truthy_set x set (app s)) s, Normal tt).
Proof.
  destruct s. unfold when_truthy, truthy_set.
  destruct x as [v|]; [|done]. by destruct (truthy_value _).
Qed.

Lemma get_field (parsed : json) (key : jsstring) :
  parsed <> JNull -> get parsed key = Normal (field parsed key).
Proof. by destruct parsed. Qed.

(** The [try] block on a text that parses to something else than [null]. *)
Lemma load_steps_run (ed : D) (raw : jsstring) (parsed : json) s :
  JSON_parse raw = Normal parsed -> parsed <> JNull ->
  load_steps ed raw s
  = match loadProjectData (field parsed (js "data")) ed with
    | (ed', Normal _) =>
        (alert (js "Template loaded.")
           (set_app (loaded parsed (app s)) (set_editor ed' s)),
         Normal tt)
    | (ed', Throw e) => (set_editor ed' s, Throw e)
    end.
Proof.
  intros Hparse Hnull. unfold load_steps.
  unfold mbind, step_bind, lift. rewrite Hparse, !get_field by done.
  unfold load_data.
  destruct (loadProjectData (field parsed (js "data")) ed) as [ed' [[]|e]];
    [|done].
  rewrite when_string_run, !when_truthy_run, when_boolean_run, when_truthy_run.
  done.
Qed.

Lemma load_steps_parse_throws (ed : D) (raw : jsstring) (e : thrown) s :
  JSON_parse raw = Throw e -> load_steps ed raw s = (s, Throw e).
Proof.
  intros Hparse. unfold load_steps, mbind, step_bind, lift. by rewrite Hparse.
Qed.

Lemma load_steps_null (ed : D) (raw : jsstring) s :
  JSON_parse raw = Normal JNull ->
  load_steps ed raw s = (s, Throw (null_access (js "data"))).
Proof.
  intros Hparse. unfold load_steps, mbind, step_bind, lift. by rewrite Hparse.
Qed.

Lemma loadTemplate_stored (ed : D) (raw : jsstring) s :
  editor s = Some ed -> storage s !! LS_PROJECT_KEY = Some raw -> raw <> [] ->
  loadTemplate s
  = match load_steps ed raw s with
    | (s', Normal _) => s'
    | (s', Throw e) => alert (failure_message e) s'
    end.
Proof.
  intros Hed Hraw Hne. unfold loadTemplate. rewrite Hed, Hraw.
  by destruct raw.
Qed.

(** X19. Loading a template never writes to [localStorage]; it shows at most
    one alert; and unless that alert is the one that reports success, the
    state of the application is the one from before. *)
Theorem loadTemplate_all_or_nothing s :
  storage (loadTemplate s) = storage s
  /\ (loadTemplate s = s
      \/ exists m : jsstring,
           alerts (loadTemplate s) = alerts s ++ [m]
           /\ (m <> js "Template loaded." -> app (loadTemplate s) = app s)).
Proof.
  destruct (editor s) as [ed|] eqn:Hed; cycle 1.
  { unfold loadTemplate. rewrite Hed. split; [done|by left]. }
  destruct (storage s !! LS_PROJECT_KEY) as [raw|] eqn:Hraw; cycle 1.
  { unfold loadTemplate. rewrite Hed, Hraw. split; [done|].
    right. by eexists. }
  destruct (decide (raw = [])) as [->|Hne].
  { unfold loadTemplate. rewrite Hed, Hraw. split; [done|].
    right. by eexists. }
  rewrite (loadTemplate_stored ed raw) by done.
  destruct (JSON_parse raw) as [parsed|e] eqn:Hparse; cycle 1.
  { rewrite (load_steps_parse_throws ed raw e) by done. split; [done|].
    right. by eexists. }
  assert (parsed = JNull \/ parsed <> JNull) as [->|Hnull]
    by (destruct parsed; auto).
  { rewrite load_steps_null by done. split; [done|]. right. by eexists. }
  rewrite (load_steps_run ed raw parsed) by done.
  destruct (loadProjectData _ ed) as [ed' [[]|e]]; (split; [done|]); right.
  - eexists. split; [done|]. by intros [].
  - by eexists.
Qed.

(** X20. A stored text that [JSON.parse] rejects, or that parses to [null],
    makes [loadTemplate] report the cause in one alert and change nothing
    else: neither the editor, whose [loadProjectData] is not reached, nor the
    state, nor the storage. *)
Theorem loadTemplate_unparsable (ed : D) (raw : jsstring) s :
  editor s = Some ed ->
  storage s !! LS_PROJECT_KEY = Some raw -> raw <> [] ->
  (forall e, JSON_parse raw = Throw e ->
             loadTemplate s = alert (failure_message e) s)
  /\ (JSON_parse raw = Normal JNull ->
      loadTemplate s = alert (failure_message (null_access (js "data"))) s).
Proof.
  intros Hed Hraw Hne. rewrite (loadTemplate_stored ed raw) by done.
  split.
  - intros e Hparse. by rewrite (load_steps_parse_throws ed raw e).
  - intros Hparse. by rewrite load_steps_null.
Qed.

(** X21. When [loadProjectData] throws, the failure is reported in one alert
    and none of the five setters has run: the state of the application is
    untouched, though the editor is left as the failed call left it. *)
Theorem loadTemplate_engine_failure (ed ed' : D) (raw : jsstring)
    (parsed : json) (e : thrown) s :
  editor s = Some ed ->
  storage s !! LS_PROJECT_KEY = Some raw -> raw <> [] ->
  JSON_parse raw = Normal parsed -> parsed <> JNull ->
  loadProjectData (field parsed (js "data")) ed = (ed', Throw e) ->
  loadTemplate s = alert (failure_message e) (set_editor ed' s).
Proof.
  intros Hed Hraw Hne Hparse Hnull Hload.
  rewrite (loadTemplate_stored ed raw) by done.
  rewrite (load_steps_run ed raw parsed) by done. by rewrite Hload.
Qed.

Lemma truthy_set_Some (v : json) (set : json -> AppState -> AppState) a :
  truthy_set (Some v) set a
  = if truthy_value (Some v) then set v a else a.
Proof. done. Qed.

Lemma member_saved (data : json) a (now : jsstring) :
  let obj := saved_object data a now in
  field obj (js "data") = Some data
  /\ field obj (js "jsValue") = Some (JString (jsValue a))
  /\ field obj (js "headSettings") = Some (headSettings a)
  /\ field obj (js "themeChoice") = Some (themeChoice a)
  /\ field obj (js "customEnabled") = Some (JBool (customEnabled a))
  /\ field obj (js "customPalette") = Some (customPalette a).
Proof. split_and!; by vm_compute. Qed.

(** X22. Saving and loading round-trip.  Whatever happened to the state in
    between, loading the text that [saveTemplate] stored hands the saved
    project data to the editor and restores the saved JS text and the
    custom-palette switch; the head settings, the theme choice and the
    palette are restored too when the saved ones are truthy, and so the whole
    state is.  [JSON.parse] is assumed to invert [JSON.stringify] on the
    saved object. *)
Theorem save_load_round_trip (ed ed2 ed3 : D) (now : jsstring) s s2 :
  let obj := saved_object (getProjectData ed) (app s) now in
  editor s = Some ed ->
  editor s2 = Some ed2 ->
  storage s2 = storage (saveTemplate now s) ->
  JSON_stringify obj <> [] ->
  JSON_parse (JSON_stringify obj) = Normal obj ->
  loadProjectData (Some (getProjectData ed)) ed2 = (ed3, Normal tt) ->
  editor (loadTemplate s2) = Some ed3
  /\ jsValue (app (loadTemplate s2)) = jsValue (app s)
  /\ customEnabled (app (loadTemplate s2)) = customEnabled (app s)
  /\ alerts (loadTemplate s2) = alerts s2 ++ [js "Template loaded."]
  /\ (truthy_value (Some (headSettings (app s))) = true ->
      truthy_value (Some (themeChoice (app s))) = true ->
      truthy_value (Some (customPalette (app s))) = true ->
      app (loadTemplate s2) = app s).
Proof.
  intros obj Hed Hed2 Hstorage Hne Hparse Hload.
  assert (storage s2 !! LS_PROJECT_KEY = Some (JSON_stringify obj)) as Hraw.
  { rewrite Hstorage. unfold saveTemplate. rewrite Hed. cbn.
    by rewrite lookup_insert_eq. }
  rewrite (loadTemplate_stored ed2 (JSON_stringify obj)) by done.
  rewrite (load_steps_run ed2 _ obj) by done.
  destruct (member_saved (getProjectData ed) (app s) now)
    as (Hdata & Hjs & Hhead & Htheme & Henabled & Hpalette).
  fold obj in Hdata, Hjs, Hhead, Htheme, Henabled, Hpalette.
  rewrite Hdata, Hload. unfold loaded.
  rewrite Hjs, Hhead, Htheme, Henabled, Hpalette.
  rewrite !truthy_set_Some. unfold string_set, boolean_set.
  generalize (truthy_value (Some (headSettings (app s)))).
  generalize (truthy_value (Some (themeChoice (app s)))).
  generalize (truthy_value (Some (customPalette (app s)))).
  intros bp bt bh.
  destruct (app s) as [j h t c p], (app s2) as [j2 h2 t2 c2 p2].
  split_and!; [done|by destruct bp, bt, bh..|done|by intros -> -> ->].
Qed.

End TemplateFacts.

(** X20 on the stored text [null]: the alert quotes the [TypeError] and the
    session is otherwise as before. *)
Lemma loadTemplate_unparsable_witness :
  let s := {| editor := Some example_project; app := example_app;
              storage := {[ LS_PROJECT_KEY := js "null" ]}; alerts := [] |} in
  @loadTemplate json example_host s
  = alert
      (js "Failed to load template: "
       ++ js "Cannot read properties of null (reading 'data')") s.
Proof.
  intros s.
  refine (proj2 (@loadTemplate_unparsable json example_host
                   example_project (js "null") s _ _ _) _).
  - reflexivity.
  - by vm_compute.
  - by vm_compute.
  - by vm_compute.
Defined.

(** X21 on a stored template whose project data is an array, which the
    example editor refuses. *)
Lemma loadTemplate_engine_failure_witness :
  let raw := js "{" ++ dq ++ js "data" ++ dq ++ js ":[1,2]}" in
  let s := {| editor := Some example_project; app := example_app;
              storage := {[ LS_PROJECT_KEY := raw ]}; alerts := [] |} in
  @loadTemplate json example_host s
  = alert (js "Failed to load template: Invalid project data") s.
Proof.
  intros raw s.
  apply (@loadTemplate_engine_failure json example_host
           example_project example_project raw
           (JObject [ (js "data", JArray [ JNumber (js "1"); JNumber (js "2") ]) ])
           (ErrorObject (js "Invalid project data")) s).
  - reflexivity.
  - by vm_compute.
  - by vm_compute.
  - by vm_compute.
  - by vm_compute.
  - by vm_compute.
Defined.

(** X22 with the reference serialiser and parser: a template saved from the
    example state is loaded back into a session whose state was changed in
    between. *)
Lemma save_load_round_trip_witness :
  let s := {| editor := Some example_project; app := example_app;
              storage := ∅; alerts := [] |} in
  let saved := @saveTemplate json example_host (js "1700000000000") s in
  let s2 := {| editor := Some (JObject []);
               app := setCustomEnabled false (setJsValue (js "") example_app);
               storage := storage saved; alerts := alerts saved |} in
  editor (@loadTemplate json example_host s2) = Some example_project
  /\ app (@loadTemplate json example_host s2) = example_app.
Proof.
  intros s saved s2.
  destruct (@save_load_round_trip json example_host
              example_project (JObject []) example_project
              (js "1700000000000") s s2)
    as (Heditor & _ & _ & _ & Happ).
  - reflexivity.
  - reflexivity.
  - reflexivity.
  - by vm_compute.
  - by vm_compute.
  - by vm_compute.
  - split; [exact Heditor|]. apply Happ; by vm_compute.
Defined.

End TemplateFacts.
